(** * Pulse: a watch / build / run supervisor

    A shallow embedding of [src/main.go] (revision 0.0.3) and of the
    detector of the earlier revision 0.0.1, followed by the properties of
    the change detector, of the build-and-run sequencer, of the process
    supervisor and of the coordinator loop.

    Conventions of the embedding
    - Go [int], [time.Duration] (nanoseconds) and [time.Time] (an instant)
      are integers of [Z]; Go strings are [string] (byte sequences).
    - The map [lastModified] is a [gmap string Z].
    - The file system is seen through [filepath.Walk]: one walk is the list
      of calls that [Walk] makes to its callback, in order.
    - Package level variables ([config], [cmd]) are passed explicitly; the
      operating system's processes are a table indexed by process id.
    - A nil dereference is the result [Panic]. *)

From Stdlib Require Import ZArith String Ascii Bool Lia.
From stdpp Require Import base gmap strings list.

Local Open Scope string_scope.
Local Open Scope list_scope.
Local Open Scope Z_scope.

(** ** Configuration *)

Record Config := mkConfig {
  MainFile : string;
  BinaryName : string;
  WatchDir : string;
  WatchExts : list string;
  WatchInterval : string;
  MaxWatchers : Z
}.

(** The initial value of the package variable [config]. *)
Definition config : Config :=
  {| MainFile := "main.go";
     BinaryName := "app";
     WatchDir := ".";
     WatchExts := [".go"; ".mod"; ".sum"];
     WatchInterval := "1s";
     MaxWatchers := 100 |}.

(** ** Errors *)

Inductive error :=
| FsError (msg : string)
    (* an error handed to the callback by filepath.Walk *)
| ExceededMaxWatchers (limit : Z)
    (* fmt.Errorf("Exceeded max watchers limit: %d", config.MaxWatchers) *)
| InvalidWatchInterval (s : string)
    (* fmt.Errorf("Invalid watch interval: %s", config.WatchInterval) *)
| ExecError (msg : string)
    (* an error of buildCmd.Run() or of cmd.Start() *)
| FileError (msg : string).
    (* an error of os.ReadFile or of json.Unmarshal *)

(** ** The [time] package, as far as the program uses it *)

Definition Millisecond : Z := 1000000.
Definition Second : Z := 1000 * Millisecond.
Definition Hour : Z := 3600 * Second.

(** [time.ParseDuration] belongs to the Go library: it is a parameter of
    the development. [None] is a parse error. *)
Class Time := { ParseDuration : string -> option Z }.

(** ** [strings.HasSuffix] and [shouldWatch] *)

Definition HasSuffix (s suffix : string) : bool :=
  (String.length suffix <=? String.length s)%nat &&
  String.eqb
    (substring (String.length s - String.length suffix)
               (String.length suffix) s)
    suffix.

Definition shouldWatch (cfg : Config) (filename : string) : bool :=
  (fix range (exts : list string) : bool :=
     match exts with
     | [] => false
     | ext :: exts' => if HasSuffix filename ext then true else range exts'
     end) (WatchExts cfg).

(** ** [filepath.Walk] *)

Record FileInfo := mkInfo { IsDir : bool; ModTime : Z }.

(** One call of the walk callback: [fn(path, info, err)]. When [err] is
    not nil the callback does not look at [info]. *)
Record Visit := mkVisit {
  path : string;
  info : FileInfo;
  err : option error
}.

Definition file (p : string) (t : Z) : Visit :=
  mkVisit p (mkInfo false t) None.
Definition dir (p : string) : Visit :=
  mkVisit p (mkInfo true 0) None.

Definition WalkFunc (S : Type) : Type :=
  string -> FileInfo -> option error -> S -> S * option error.

(** The walk stops at the first call whose callback returns an error, and
    returns that error (the callbacks of this program never return
    [SkipDir]). *)
Fixpoint Walk {S : Type} (fn : WalkFunc S) (visits : list Visit) (s : S)
  : S * option error :=
  match visits with
  | [] => (s, None)
  | v :: rest =>
      match fn (path v) (info v) (err v) s with
      | (s', Some e) => (s', Some e)
      | (s', None) => Walk fn rest s'
      end
  end.

(** ** The change detector: [watchFiles] *)

(** The callback of the initial walk. *)
Definition initialVisit (cfg : Config) : WalkFunc (gmap string Z) :=
  fun path info err lastModified =>
    match err with
    | Some e => (lastModified, Some e)
    | None =>
        if IsDir info || negb (shouldWatch cfg path) then (lastModified, None)
        else
          let lastModified := <[path := ModTime info]> lastModified in
          if MaxWatchers cfg <? Z.of_nat (size lastModified)
          then (lastModified, Some (ExceededMaxWatchers (MaxWatchers cfg)))
          else (lastModified, None)
    end.

(** The state of one tick: the table, the flag [changes] and the paths
    printed as "File changed". *)
Record TickState := mkTick {
  lastModified : gmap string Z;
  changes : bool;
  reported : list string
}.

(** The callback of the walk of a tick. *)
Definition tickVisit (cfg : Config) : WalkFunc TickState :=
  fun path info err st =>
    match err with
    | Some e => (st, Some e)
    | None =>
        if IsDir info || negb (shouldWatch cfg path) then (st, None)
        else
          let modTime := ModTime info in
          let lastMod := lastModified st !! path in
          let st :=
            match lastMod with
            | Some t =>
                if t <? modTime (* modTime.After(lastMod) *)
                then mkTick (<[path := modTime]> (lastModified st)) true
                            (reported st ++ [path])
                else st
            | None =>
                mkTick (<[path := modTime]> (lastModified st)) true
                       (reported st ++ [path])
            end in
          match lastMod with
          | None =>
              if MaxWatchers cfg <=? Z.of_nat (size (lastModified st))
              then (st, Some (ExceededMaxWatchers (MaxWatchers cfg)))
              else (st, None)
          | Some _ => (st, None)
          end
    end.

(** What the detector sends: [errCh <- err] or [buildCh <- true]. *)
Inductive Send := ErrCh (e : error) | BuildCh.

(** The body of [case <-ticker.C]: the sends of the tick, the table after
    it, and whether the detector goes on to the next [select]. *)
Record TickResult := mkResult {
  table : gmap string Z;
  sent : list Send;
  printed : list string;
  goes_on : bool
}.

Definition tick (cfg : Config) (visits : list Visit) (tbl : gmap string Z)
  : TickResult :=
  match Walk (tickVisit cfg) visits (mkTick tbl false []) with
  | (st, Some e) => mkResult (lastModified st) [ErrCh e] (reported st) false
  | (st, None) =>
      mkResult (lastModified st) (if changes st then [BuildCh] else [])
               (reported st) true
  end.

(** Which case of the detector's [select] fires. *)
Inductive Select := Done | TickerC (visits : list Visit).

Inductive DetectorStatus :=
| Waiting   (* blocked in select: no further input *)
| Stopped   (* returned *)
| Crashed.  (* time.NewTicker panics on a duration that is not positive *)

Fixpoint watchLoop (cfg : Config) (sel : list Select) (tbl : gmap string Z)
  : list Send * gmap string Z * DetectorStatus :=
  match sel with
  | [] => ([], tbl, Waiting)
  | Done :: _ => ([], tbl, Stopped)
  | TickerC visits :: sel' =>
      let r := tick cfg visits tbl in
      if goes_on r then
        match watchLoop cfg sel' (table r) with
        | (s, tbl', status) => (sent r ++ s, tbl', status)
        end
      else (sent r, table r, Stopped)
  end.

Definition watchFiles `{Time} (cfg : Config) (initial : list Visit)
    (sel : list Select) : list Send * gmap string Z * DetectorStatus :=
  match Walk (initialVisit cfg) initial ∅ with
  | (tbl, Some e) => ([ErrCh e], tbl, Stopped)
  | (tbl, None) =>
      match ParseDuration (WatchInterval cfg) with
      | None => ([ErrCh (InvalidWatchInterval (WatchInterval cfg))], tbl, Stopped)
      | Some duration =>
          if duration <=? 0 then ([], tbl, Crashed)
          else watchLoop cfg sel tbl
      end
  end.

(** ** Processes, the package variable [cmd], and effects *)

Abbreviation pid := nat (only parsing).

Inductive ProcStatus :=
| Running
| Exited   (* terminated, not yet waited for *)
| Reaped.  (* terminated and waited for *)

(** The fields of [exec.Cmd] that the program depends on. [Process] is
    nil until [Start] succeeds; [ProcessState] is set by [Wait]. *)
Record Cmd := mkCmd {
  Path : string;
  Process : option pid;
  ProcessState : bool
}.

Record World := mkWorld {
  cmd : option Cmd;          (* the package variable, nil at first *)
  procs : list ProcStatus    (* the children ever started, by process id *)
}.

Inductive Msg :=
| MsgBuilding
| MsgBuildFailed (e : error)
| MsgBuildSuccessful
| MsgRunningProgram
| MsgStartError (e : error)
| MsgProgramIsRunning
| MsgStopping
| MsgFatal (e : error)
| MsgShuttingDown.

(** What a call does to the outside, in order. *)
Inductive Event :=
| Printed (m : Msg)
| BuildRun (binary main : string)   (* buildCmd.Run() *)
| StartCall (path : string)         (* cmd.Start() *)
| KillCall (p : pid)                (* cmd.Process.Kill() *)
| WaitCall                          (* cmd.Wait() *)
| CancelCall                        (* cancel() *)
| OsExit (code : Z).                (* os.Exit(exitCode) *)

Inductive result (A : Type) :=
| Ok (a : A) (w : World) (out : list Event)
| Panic.
Arguments Ok {A} a w out.
Arguments Panic {A}.

Definition M (A : Type) : Type := World -> result A.

#[global] Instance M_ret : MRet M := fun A a w => Ok a w [].
#[global] Instance M_bind : MBind M := fun A B f m w =>
  match m w with
  | Ok a w' out =>
      match f a w' with
      | Ok b w'' out' => Ok b w'' (out ++ out')
      | Panic => Panic
      end
  | Panic => Panic
  end.

(** [x != nil]. *)
Definition not_nil {A : Type} (x : option A) : bool :=
  match x with Some _ => true | None => false end.

Definition emit (e : Event) : M unit := fun w => Ok tt w [e].
Definition Println (m : Msg) : M unit := emit (Printed m).
Definition panic {A : Type} : M A := fun _ => Panic.
Definition get_cmd : M (option Cmd) := fun w => Ok (cmd w) w [].
Definition set_cmd (c : option Cmd) : M unit :=
  fun w => Ok tt (mkWorld c (procs w)) [].

(** [c.Process] for [c : *exec.Cmd]: a nil [c] is a nil dereference. *)
Definition field_Process (c : option Cmd) : M (option pid) :=
  match c with
  | None => panic
  | Some c => mret (Process c)
  end.

(** [Kill] of [os.Process]: a nil receiver is a nil dereference; killing a
    process that has terminated returns an error, which the program
    ignores. *)
Definition Process_Kill (p : option pid) : M unit :=
  match p with
  | None => panic
  | Some p => fun w =>
      match procs w !! p with
      | Some Running =>
          Ok tt (mkWorld (cmd w) (<[p := Exited]> (procs w))) [KillCall p]
      | _ => Ok tt w [KillCall p]
      end
  end.

(** [Wait] of [exec.Cmd]: an error (ignored by the program) when the command
    was not started or was waited for already; otherwise it returns once
    the process has terminated, and releases it. *)
Definition Cmd_Wait (c : option Cmd) : M unit :=
  match c with
  | None => panic
  | Some c => fun w =>
      match Process c with
      | None => Ok tt w [WaitCall]
      | Some p =>
          if ProcessState c then Ok tt w [WaitCall]
          else Ok tt (mkWorld (Some (mkCmd (Path c) (Process c) true))
                              (<[p := Reaped]> (procs w))) [WaitCall]
      end
  end.

(** The results of the external commands of one build-and-run sequence:
    the error of [buildCmd.Run()] and the error of [cmd.Start()]. *)
Record Outcome := mkOutcome {
  buildErr : option error;
  startErr : option error
}.

Definition buildCmd_Run (cfg : Config) (o : Outcome) : M (option error) :=
  fun w => Ok (buildErr o) w [BuildRun (BinaryName cfg) (MainFile cfg)].

(** [Start] of [exec.Cmd]: on failure [Process] stays nil. *)
Definition Cmd_Start (c : option Cmd) (o : Outcome) : M (option error) :=
  match c with
  | None => panic
  | Some c => fun w =>
      match startErr o with
      | Some e => Ok (Some e) w [StartCall (Path c)]
      | None =>
          Ok None
             (mkWorld (Some (mkCmd (Path c) (Some (length (procs w))) false))
                      (procs w ++ [Running]))
             [StartCall (Path c)]
      end
  end.

(** ** [buildAndRun] and [stopProcess] *)

Definition buildAndRun (cfg : Config) (o : Outcome) : M unit :=
  Println MsgBuilding ;;
  e ← buildCmd_Run cfg o ;
  match e with
  | Some e => Println (MsgBuildFailed e)
  | None =>
      Println MsgBuildSuccessful ;;
      Println MsgRunningProgram ;;
      set_cmd (Some (mkCmd (String.append "./" (BinaryName cfg)) None false)) ;;
      c ← get_cmd ;
      e ← Cmd_Start c o ;
      match e with
      | Some e => Println (MsgStartError e)
      | None => Println MsgProgramIsRunning
      end
  end.

Definition stopProcess : M unit :=
  c ← get_cmd ;
  guard ← match c with
          | None => mret false               (* cmd != nil fails: short circuit *)
          | Some _ => p ← field_Process c ; mret (not_nil p)
          end ;
  if guard : bool then
    Println MsgStopping ;;
    p ← field_Process c ;
    Process_Kill p ;;
    c ← get_cmd ;
    Cmd_Wait c
  else mret tt.

(** [stopProcess] without its condition, for comparison. *)
Definition killAndWait : M unit :=
  Println MsgStopping ;;
  c ← get_cmd ;
  p ← field_Process c ;
  Process_Kill p ;;
  c ← get_cmd ;
  Cmd_Wait c.

(** ** The coordinator: [main] from the initial build on

    The flags are handled before ([-v] and [-init] print and return), then
    the configuration is loaded and the two goroutines are started; the
    embedding of [main] begins at the initial [buildAndRun]. *)

(** What one [select] of the loop receives: a value of [buildCh] (the
    rebuild it starts has the given outcome), of [errCh] or of [done]. *)
Inductive CoordinatorEvent :=
| RebuildRequested (o : Outcome)
| FatalError (e : error)
| ShutdownRequested.


(** The [for { select { ... } }] loop; [None] when no event is left, where
    the loop waits. *)
Fixpoint loop (cfg : Config) (exitCode : Z) (evs : list CoordinatorEvent)
  : M (option Z) :=
  match evs with
  | [] => mret None
  | RebuildRequested o :: evs' =>
      stopProcess ;; buildAndRun cfg o ;; loop cfg exitCode evs'
  | FatalError e :: _ => Println (MsgFatal e) ;; mret (Some 1)
  | ShutdownRequested :: _ => Println MsgShuttingDown ;; mret (Some exitCode)
  end.

Definition main (cfg : Config) (o : Outcome) (evs : list CoordinatorEvent)
  : M (option Z) :=
  buildAndRun cfg o ;;
  r ← loop cfg 0 evs ;
  match r with
  | None => mret None
  | Some exitCode =>
      emit CancelCall ;; stopProcess ;; emit (OsExit exitCode) ;;
      mret (Some exitCode)
  end.

(** ** [loadConfig] *)

(** What the file operations at the head of [loadConfig] yield. *)
Inductive ConfigFile :=
| NotExist                  (* os.Stat reports that the file does not exist *)
| Unreadable (e : error)    (* os.ReadFile fails *)
| Unmarshalled (c : Config) (e : option error).
    (* json.Unmarshal(data, &config): the value of config after the call,
       and the error of the call *)

Inductive Warning :=
| WarnRead (e : error)
| WarnParse (e : error)
| WarnMaxWatchersInvalid
| WarnMaxWatchersExceeds
| WarnIntervalInvalid
| WarnIntervalShort
| WarnIntervalLong.

Definition set_MainFile (v : string) (c : Config) : Config :=
  mkConfig v (BinaryName c) (WatchDir c) (WatchExts c) (WatchInterval c)
           (MaxWatchers c).
Definition set_BinaryName (v : string) (c : Config) : Config :=
  mkConfig (MainFile c) v (WatchDir c) (WatchExts c) (WatchInterval c)
           (MaxWatchers c).
Definition set_WatchDir (v : string) (c : Config) : Config :=
  mkConfig (MainFile c) (BinaryName c) v (WatchExts c) (WatchInterval c)
           (MaxWatchers c).
Definition set_WatchExts (v : list string) (c : Config) : Config :=
  mkConfig (MainFile c) (BinaryName c) (WatchDir c) v (WatchInterval c)
           (MaxWatchers c).
Definition set_WatchInterval (v : string) (c : Config) : Config :=
  mkConfig (MainFile c) (BinaryName c) (WatchDir c) (WatchExts c) v
           (MaxWatchers c).
Definition set_MaxWatchers (v : Z) (c : Config) : Config :=
  mkConfig (MainFile c) (BinaryName c) (WatchDir c) (WatchExts c)
           (WatchInterval c) v.

(** The checks that follow a successful [json.Unmarshal], in the order of
    the source: the defaults of the empty fields, the bounds of
    [MaxWatchers], the bounds of the watch interval. *)
Definition fillDefaults (config : Config) : Config :=
  let config :=
    if String.eqb (MainFile config) "" then set_MainFile "main.go" config
    else config in
  let config :=
    if String.eqb (BinaryName config) "" then set_BinaryName "app" config
    else config in
  let config :=
    if String.eqb (WatchDir config) "" then set_WatchDir "." config
    else config in
  if (length (WatchExts config) =? 0)%nat
  then set_WatchExts [".go"; ".mod"; ".sum"] config
  else config.

Definition clampMaxWatchers (config : Config) : Config * list Warning :=
  if MaxWatchers config <? 1
  then (set_MaxWatchers 100 config, [WarnMaxWatchersInvalid])
  else if 500 <? MaxWatchers config
  then (set_MaxWatchers 500 config, [WarnMaxWatchersExceeds])
  else (config, []).

(** The local variable [duration] is dropped when the function returns. *)
Definition clampWatchInterval `{Time} (config : Config)
  : Config * list Warning :=
  let '(duration, bad) :=
    match ParseDuration (WatchInterval config) with
    | Some d => (d, false)
    | None => (0, true)
    end in
  let '(config, duration, w1) :=
    if bad || String.eqb (WatchInterval config) ""
    then (set_WatchInterval "1s" config, 1 * Second, [WarnIntervalInvalid])
    else (config, duration, []) in
  let minInterval := 500 * Millisecond in
  let '(config, duration, w2) :=
    if duration <? minInterval
    then (set_WatchInterval "500ms" config, minInterval, [WarnIntervalShort])
    else (config, duration, []) in
  let maxInterval := 1 * Hour in
  let '(config, duration, w3) :=
    if maxInterval <? duration
    then (set_WatchInterval "1h" config, maxInterval, [WarnIntervalLong])
    else (config, duration, []) in
  (config, w1 ++ w2 ++ w3).

Definition validate `{Time} (config : Config) : Config * list Warning :=
  let config := fillDefaults config in
  let '(config, w1) := clampMaxWatchers config in
  let '(config, w2) := clampWatchInterval config in
  (config, w1 ++ w2).

(** [loadConfig], from the value [config] of the package variable. *)
Definition loadConfig `{Time} (config : Config) (f : ConfigFile)
  : Config * list Warning :=
  match f with
  | NotExist => (config, [])
  | Unreadable e => (config, [WarnRead e])
  | Unmarshalled config (Some e) => (config, [WarnParse e])
  | Unmarshalled config None => validate config
  end.

(** A duration parser for concrete runs. It accepts ["0"] and the strings
    made of decimal digits followed by one of the units ns, us, ms, s, m
    and h, with the value that [time.ParseDuration] gives them, and rejects
    every other string (also the signed, fractional and composite ones that
    the Go function accepts). *)
Module IntDurations.

Definition digit (a : ascii) : option Z :=
  let n := nat_of_ascii a in
  if ((48 <=? n) && (n <=? 57))%nat then Some (Z.of_nat n - 48) else None.

Fixpoint leadingInt (s : string) (v : Z) : Z * string :=
  match s with
  | String a s' =>
      match digit a with
      | Some d => leadingInt s' (10 * v + d)
      | None => (v, s)
      end
  | EmptyString => (v, s)
  end.

Definition unitMap (u : string) : option Z :=
  if String.eqb u "ns" then Some 1
  else if String.eqb u "us" then Some 1000
  else if String.eqb u "ms" then Some Millisecond
  else if String.eqb u "s" then Some Second
  else if String.eqb u "m" then Some (60 * Second)
  else if String.eqb u "h" then Some Hour
  else None.

Definition parse (s : string) : option Z :=
  if String.eqb s "0" then Some 0
  else
    let '(v, rest) := leadingInt s 0 in
    if (String.length rest =? String.length s)%nat then None
    else
      match unitMap rest with
      | Some unit => if 2 ^ 63 - 1 <? v * unit then None else Some (v * unit)
      | None => None
      end.

Definition time : Time := {| ParseDuration := parse |}.

End IntDurations.

(** ** The detector of revision 0.0.1

    The earlier revision has no [MaxWatchers]; its callbacks send a walk
    error on [errCh] themselves and return nil, so the walk goes on. *)
Module Rev001.

Definition initialVisit (cfg : Config)
  : WalkFunc (gmap string Z * list Send) :=
  fun path info err '(lastModified, out) =>
    match err with
    | Some e => ((lastModified, out ++ [ErrCh e]), None)
    | None =>
        if IsDir info || negb (shouldWatch cfg path)
        then ((lastModified, out), None)
        else ((<[path := ModTime info]> lastModified, out), None)
    end.

Definition tickVisit (cfg : Config) : WalkFunc (TickState * list Send) :=
  fun path info err '(st, out) =>
    match err with
    | Some e => ((st, out ++ [ErrCh e]), None)
    | None =>
        if IsDir info || negb (shouldWatch cfg path) then ((st, out), None)
        else
          let modTime := ModTime info in
          match lastModified st !! path with
          | Some t =>
              if t <? modTime
              then ((mkTick (<[path := modTime]> (lastModified st)) true
                            (reported st ++ [path]), out), None)
              else ((st, out), None)
          | None =>
              ((mkTick (<[path := modTime]> (lastModified st)) true
                       (reported st ++ [path]), out), None)
          end
    end.

Definition tick (cfg : Config) (visits : list Visit) (tbl : gmap string Z)
  : TickResult :=
  match Walk (tickVisit cfg) visits (mkTick tbl false [], []) with
  | ((st, out), Some e) =>
      mkResult (lastModified st) (out ++ [ErrCh e]) (reported st) false
  | ((st, out), None) =>
      mkResult (lastModified st)
               (out ++ if changes st then [BuildCh] else [])
               (reported st) true
  end.

End Rev001.

(** ** Notions used in the statements *)

(** A call of the walk concerns a watched file. *)
Definition watched (cfg : Config) (v : Visit) : bool :=
  match err v with
  | Some _ => false
  | None => negb (IsDir (info v)) && shouldWatch cfg (path v)
  end.


(** The paths of the watched files of a walk, in the order of the walk. *)
Fixpoint watched_paths (cfg : Config) (visits : list Visit) : list string :=
  match visits with
  | [] => []
  | v :: rest =>
      if watched cfg v then path v :: watched_paths cfg rest
      else watched_paths cfg rest
  end.

(** No child is running. *)
Definition none_running (w : World) : Prop :=
  forall p, procs w !! p <> Some Running.

(** Every running child is the one that [cmd] tracks. *)
Definition supervised (w : World) : Prop :=
  forall p, procs w !! p = Some Running ->
            exists c, cmd w = Some c /\ Process c = Some p.

(** No process is tracked: [cmd] is nil, or its [Process] is nil. *)
Definition untracked (w : World) : Prop :=
  cmd w = None \/ exists c, cmd w = Some c /\ Process c = None.

(** Output that precedes the output of a result. *)
Definition after (out : list Event) {A : Type} (r : result A) : result A :=
  match r with
  | Ok a w out' => Ok a w (out ++ out')
  | Panic => Panic
  end.

(** The run command. *)
Definition run_path (cfg : Config) : string :=
  String.append "./" (BinaryName cfg).

(** The exit status of a run of the coordinator, if it exits. *)
Definition exit_code (r : result (option Z)) : option Z :=
  match r with
  | Ok c _ _ => c
  | Panic => None
  end.

(** The number of paths of a list that the table does not hold. *)
Fixpoint count_new (tbl : gmap string Z) (ps : list string) : nat :=
  match ps with
  | [] => 0
  | p :: ps' =>
      (match tbl !! p with Some _ => 0 | None => 1 end + count_new tbl ps')%nat
  end.

(** What the program needs of [time.ParseDuration]: the three interval
    strings that [loadConfig] writes parse to the durations it compares
    with. *)
Definition parses_literals `{Time} : Prop :=
  ParseDuration "1s" = Some Second /\
  ParseDuration "500ms" = Some (500 * Millisecond) /\
  ParseDuration "1h" = Some Hour.

(** A configuration that the checks of [loadConfig] leave alone: no empty
    field, the limit between 1 and 500, the interval between 500ms and
    one hour. *)
Definition valid_config `{Time} (c : Config) : Prop :=
  MainFile c <> "" /\
  BinaryName c <> "" /\
  WatchDir c <> "" /\
  WatchExts c <> [] /\
  1 <= MaxWatchers c <= 500 /\
  WatchInterval c <> "" /\
  exists d,
    ParseDuration (WatchInterval c) = Some d /\
    500 * Millisecond <= d <= 1 * Hour.

(** Every child has terminated and has been waited for. *)
Definition all_reaped (w : World) : Prop :=
  forall p s, procs w !! p = Some s -> s = Reaped.

(** Every child has terminated and has been waited for, except the one
    that [cmd] tracks, which may be running and not yet waited for. *)
Definition one_child (w : World) : Prop :=
  forall p s,
    procs w !! p = Some s ->
    s = Reaped \/
    (s = Running /\
     exists c, cmd w = Some c /\ Process c = Some p /\ ProcessState c = false).

(** Counting in a list. *)
Fixpoint count {A : Type} (f : A -> bool) (l : list A) : nat :=
  match l with
  | [] => 0
  | x :: l' => ((if f x then 1 else 0) + count f l')%nat
  end.

Definition is_build (e : Event) : bool :=
  match e with BuildRun _ _ => true | _ => false end.
Definition is_start (e : Event) : bool :=
  match e with StartCall _ => true | _ => false end.

(** The build of a sequence succeeds; the sequence starts a process. *)
Definition built (o : Outcome) : bool := negb (not_nil (buildErr o)).
Definition launched (o : Outcome) : bool :=
  negb (not_nil (buildErr o)) && negb (not_nil (startErr o)).

(** * Properties *)

(** ** The walk *)


(** A walk that reaches a call carrying an error returns that error, for
    both callbacks of [watchFiles]. *)
Lemma initialVisit_error cfg (v : Visit) (e : error) (tbl : gmap string Z) :
  err v = Some e ->
  initialVisit cfg (path v) (info v) (err v) tbl = (tbl, Some e).
Proof. intros ->. reflexivity. Qed.

Lemma tickVisit_error cfg (v : Visit) (e : error) (st : TickState) :
  err v = Some e ->
  tickVisit cfg (path v) (info v) (err v) st = (st, Some e).
Proof. intros ->. reflexivity. Qed.

(** ** Changed files *)





(** A tick whose walk fails sends the error, and nothing on [buildCh]. *)
Lemma tick_failure_sends_error cfg (visits : list Visit) (tbl : gmap string Z) :
  goes_on (tick cfg visits tbl) = false ->
  exists e, snd (Walk (tickVisit cfg) visits (mkTick tbl false [])) = Some e /\
            sent (tick cfg visits tbl) = [ErrCh e].
Proof.
  unfold tick.
  destruct (Walk (tickVisit cfg) visits (mkTick tbl false [])) as [st [e|]];
    simpl; [eauto|discriminate].
Qed.




(** ** The limit on watched files *)

Lemma initialVisit_unwatched cfg (v : Visit) (tbl : gmap string Z) :
  err v = None -> watched cfg v = false ->
  initialVisit cfg (path v) (info v) (err v) tbl = (tbl, None).
Proof.
  unfold initialVisit, watched. intros ->.
  destruct (IsDir (info v)); simpl; [done|].
  by destruct (shouldWatch cfg (path v)).
Qed.

Lemma initialVisit_watched cfg (v : Visit) (tbl : gmap string Z) :
  watched cfg v = true ->
  initialVisit cfg (path v) (info v) (err v) tbl =
  (<[path v := ModTime (info v)]> tbl,
   if MaxWatchers cfg <? Z.of_nat (size (<[path v := ModTime (info v)]> tbl))
   then Some (ExceededMaxWatchers (MaxWatchers cfg)) else None).
Proof.
  unfold initialVisit, watched.
  destruct (err v); [discriminate|].
  destruct (IsDir (info v)); simpl; [discriminate|].
  destruct (shouldWatch cfg (path v)); simpl; [|discriminate].
  intros _. by case_match.
Qed.

(** The initial walk keeps the entries that the table holds. *)
Lemma Walk_initial_keeps cfg (visits : list Visit) (tbl : gmap string Z)
    (p : string) :
  is_Some (tbl !! p) ->
  is_Some ((Walk (initialVisit cfg) visits tbl).1 !! p).
Proof.
  revert tbl. induction visits as [|v visits IH]; intros tbl Hp; simpl; [done|].
  assert (is_Some ((initialVisit cfg (path v) (info v) (err v) tbl).1 !! p))
    as H1.
  { unfold initialVisit. repeat (case_match; simpl; try done);
      rewrite lookup_insert; case_decide; done. }
  destruct (initialVisit cfg (path v) (info v) (err v) tbl) as [tbl1 [e|]];
    simpl in *; [done|by apply IH].
Qed.

(** The initial walk from a table that holds none of the files of the
    walk: it fails exactly when a file brings the size of the table above
    the limit, and otherwise records every file. *)
Lemma Walk_initial_limit cfg (visits : list Visit) (tbl : gmap string Z) :
  Forall (fun v => err v = None) visits ->
  NoDup (watched_paths cfg visits) ->
  (forall p, p ∈ watched_paths cfg visits -> tbl !! p = None) ->
  exists tbl',
    Walk (initialVisit cfg) visits tbl =
    (tbl',
     if (0 <? length (watched_paths cfg visits))%nat &&
        (MaxWatchers cfg
         <? Z.of_nat (size tbl + length (watched_paths cfg visits)))
     then Some (ExceededMaxWatchers (MaxWatchers cfg)) else None) /\
    ((0 <? length (watched_paths cfg visits))%nat &&
     (MaxWatchers cfg
      <? Z.of_nat (size tbl + length (watched_paths cfg visits))) = false ->
     size tbl' = (size tbl + length (watched_paths cfg visits))%nat /\
     forall p, p ∈ watched_paths cfg visits -> is_Some (tbl' !! p)).
Proof.
  revert tbl. induction visits as [|v visits IH]; intros tbl Herr Hnd Hfresh.
  - exists tbl. simpl. split; [done|]. intros _. split; [lia|].
    intros p Hp. by apply elem_of_nil in Hp.
  - apply Forall_cons in Herr as [Hv Herr]. simpl in *.
    destruct (watched cfg v) eqn:Hw.
    + apply NoDup_cons in Hnd as [Hnotin Hnd]. simpl.
      rewrite (initialVisit_watched cfg v tbl Hw).
      assert (tbl !! path v = None) as Hnone by (apply Hfresh; set_solver).
      rewrite (map_size_insert_None _ _ _ Hnone).
      remember (length (watched_paths cfg visits)) as k eqn:Hk.
      destruct (Z.ltb_spec (MaxWatchers cfg) (Z.of_nat (S (size tbl))))
        as [Hlim|Hlim].
      * assert ((MaxWatchers cfg <? Z.of_nat (size tbl + S k)) = true) as Hb
          by (apply Z.ltb_lt; lia).
        eexists. split.
        -- rewrite Hb. reflexivity.
        -- rewrite Hb. discriminate.
      * destruct (IH (<[path v := ModTime (info v)]> tbl) Herr Hnd)
          as (tbl' & HW & Hok).
        { intros p Hp. rewrite lookup_insert_ne; [|by intros <-].
          apply Hfresh. set_solver. }
        rewrite (map_size_insert_None _ _ _ Hnone) in HW, Hok.
        assert (((0 <? k)%nat && (MaxWatchers cfg <? Z.of_nat (S (size tbl) + k)))
                = (MaxWatchers cfg <? Z.of_nat (size tbl + S k))) as Hb.
        { replace (S (size tbl) + k)%nat with (size tbl + S k)%nat by lia.
          destruct k as [|k]; [|done]. simpl. symmetry. apply Z.ltb_ge. lia. }
        rewrite Hb in HW, Hok.
        exists tbl'. split; [done|].
        intros Hb'. destruct (Hok Hb') as [Hsz Hin]. split; [lia|].
        intros p [->|Hp]%elem_of_cons; [|by apply Hin].
        pose proof (Walk_initial_keeps cfg visits
                      (<[path v := ModTime (info v)]> tbl) (path v)) as Hk'.
        rewrite HW in Hk'. apply Hk'. rewrite lookup_insert_eq. by eexists.
    + rewrite (initialVisit_unwatched cfg v tbl Hv Hw).
      by apply IH.
Qed.

(** X16: the initial walk, from the empty table, over a tree that yields
    no error: it fails with the limit error iff the number of watched files
    exceeds [MaxWatchers]; when it does not fail, every watched file is in
    the table. *)
Lemma initial_walk_limit cfg (visits : list Visit) :
  Forall (fun v => err v = None) visits ->
  NoDup (watched_paths cfg visits) ->
  0 <= MaxWatchers cfg ->
  (snd (Walk (initialVisit cfg) visits ∅)
   = Some (ExceededMaxWatchers (MaxWatchers cfg)) <->
   MaxWatchers cfg < Z.of_nat (length (watched_paths cfg visits))) /\
  (snd (Walk (initialVisit cfg) visits ∅) = None <->
   Z.of_nat (length (watched_paths cfg visits)) <= MaxWatchers cfg) /\
  (Z.of_nat (length (watched_paths cfg visits)) <= MaxWatchers cfg ->
   size (fst (Walk (initialVisit cfg) visits ∅))
   = length (watched_paths cfg visits) /\
   forall p, p ∈ watched_paths cfg visits ->
             is_Some (fst (Walk (initialVisit cfg) visits ∅) !! p)).
Proof.
  intros Herr Hnd Hmax.
  destruct (Walk_initial_limit cfg visits ∅ Herr Hnd) as (tbl' & HW & Hok).
  { intros p _. apply lookup_empty. }
  rewrite map_size_empty in HW, Hok. simpl in HW, Hok. rewrite HW. simpl.
  set (k := length (watched_paths cfg visits)) in *.
  destruct (Z.ltb_spec (MaxWatchers cfg) (Z.of_nat k)) as [Hlt|Hge].
  - assert ((0 <? k)%nat = true) as -> by (apply Nat.ltb_lt; lia). simpl.
    split; [|split]; [split; [done|done] | split; [discriminate|lia] | lia].
  - rewrite andb_false_r in *.
    split; [|split]; [split; [discriminate|lia] | done | intros _; by apply Hok].
Qed.

(** In a tick, a new file that brings the table to exactly [MaxWatchers]
    entries makes the walk fail. *)
Lemma tick_new_file_reaching_limit cfg (tbl : gmap string Z) (p : string)
    (t : Z) :
  shouldWatch cfg p = true ->
  tbl !! p = None ->
  Z.of_nat (size tbl) + 1 = MaxWatchers cfg ->
  sent (tick cfg [file p t] tbl) = [ErrCh (ExceededMaxWatchers (MaxWatchers cfg))] /\
  Z.of_nat (size (table (tick cfg [file p t] tbl))) = MaxWatchers cfg.
Proof.
  intros Hw Hnone Hsz. unfold tick. simpl. unfold tickVisit. simpl.
  rewrite Hw, Hnone. simpl. rewrite (map_size_insert_None _ _ _ Hnone).
  assert ((MaxWatchers cfg <=? Z.of_nat (S (size tbl))) = true) as ->
    by (apply Z.leb_le; lia).
  simpl. rewrite (map_size_insert_None _ _ _ Hnone). split; [done|lia].
Qed.

(** C3, on the code: with [MaxWatchers] = 2, an initial walk that finds
    exactly two watched files succeeds, but a tick that discovers the
    second file, so that the table reaches exactly two entries, fails with
    the limit error and stops the detector. *)
Theorem tick_fails_at_exactly_max :
  let cfg := set_MaxWatchers 2 config in
  let two := [file "a.go" 1; file "b.go" 1] in
  snd (Walk (initialVisit cfg) two ∅) = None /\
  sent (tick cfg two {["a.go" := 1]}) = [ErrCh (ExceededMaxWatchers 2)] /\
  size (table (tick cfg two {["a.go" := 1]})) = 2%nat /\
  (let r := @watchFiles IntDurations.time cfg [file "a.go" 1] [TickerC two] in
   r.1.1 = [ErrCh (ExceededMaxWatchers 2)] /\ r.2 = Stopped).
Proof. vm_compute. repeat split; reflexivity. Qed.

(** ** The fingerprint table across passes *)

Lemma tickVisit_keeps cfg (v : Visit) (st : TickState) (p : string) (t : Z) :
  lastModified st !! p = Some t ->
  exists t',
    lastModified (tickVisit cfg (path v) (info v) (err v) st).1 !! p = Some t'
    /\ t <= t'.
Proof.
  intros Hp. unfold tickVisit.
  destruct (err v); simpl; [exists t; split; [done|lia]|].
  destruct (IsDir (info v) || negb (shouldWatch cfg (path v))); simpl;
    [exists t; split; [done|lia]|].
  destruct (lastModified st !! path v) as [t0|] eqn:E.
  - destruct (Z.ltb_spec t0 (ModTime (info v))); simpl;
      [|exists t; split; [done|lia]].
    destruct (decide (path v = p)) as [<-|Hne].
    + rewrite lookup_insert_eq. eexists. split; [done|]. simplify_eq. lia.
    + rewrite lookup_insert_ne by done. exists t. split; [done|lia].
  - assert (path v <> p) as Hne by (intros <-; congruence).
    case_match; simpl; rewrite lookup_insert_ne by done;
      exists t; (split; [done|lia]).
Qed.

Lemma Walk_tick_keeps cfg (visits : list Visit) (st : TickState) (p : string)
    (t : Z) :
  lastModified st !! p = Some t ->
  exists t',
    lastModified (Walk (tickVisit cfg) visits st).1 !! p = Some t' /\ t <= t'.
Proof.
  revert st t. induction visits as [|v visits IH]; intros st t Hp; simpl.
  - exists t. split; [done|lia].
  - destruct (tickVisit_keeps cfg v st p t Hp) as (t1 & H1 & Hle).
    destruct (tickVisit cfg (path v) (info v) (err v) st) as [st1 [e|]];
      simpl in *; [by exists t1|].
    destruct (IH st1 t1 H1) as (t2 & H2 & Hle'). exists t2. split; [done|lia].
Qed.

(** A call on a watched file leaves the file in the table, with a
    timestamp that is at least the one seen. *)
Lemma tickVisit_records cfg (v : Visit) (st : TickState) :
  watched cfg v = true ->
  exists t',
    lastModified (tickVisit cfg (path v) (info v) (err v) st).1 !! path v
    = Some t' /\ ModTime (info v) <= t'.
Proof.
  unfold watched, tickVisit.
  destruct (err v); [discriminate|].
  destruct (IsDir (info v)); simpl; [discriminate|].
  destruct (shouldWatch cfg (path v)); simpl; [intros _|discriminate].
  destruct (lastModified st !! path v) as [t0|] eqn:E.
  - destruct (Z.ltb_spec t0 (ModTime (info v))); simpl.
    + rewrite lookup_insert_eq. eexists. split; [done|lia].
    + exists t0. split; [done|lia].
  - case_match; simpl; rewrite lookup_insert_eq; eexists; (split; [done|lia]).
Qed.

Lemma Walk_tick_records cfg (visits : list Visit) (st st' : TickState)
    (v : Visit) :
  Walk (tickVisit cfg) visits st = (st', None) ->
  v ∈ visits -> watched cfg v = true ->
  exists t', lastModified st' !! path v = Some t' /\ ModTime (info v) <= t'.
Proof.
  revert st. induction visits as [|u visits IH]; intros st HW Hin Hw.
  - by apply elem_of_nil in Hin.
  - simpl in HW.
    destruct (tickVisit cfg (path u) (info u) (err u) st) as [st1 [e|]] eqn:E;
      [discriminate|].
    apply elem_of_cons in Hin as [->|Hin]; [|by eapply IH].
    destruct (tickVisit_records cfg u st Hw) as (t1 & H1 & Hle).
    rewrite E in H1. simpl in H1.
    destruct (Walk_tick_keeps cfg visits st1 (path u) t1 H1) as (t2 & H2 & Hle').
    rewrite HW in H2. exists t2. split; [done|lia].
Qed.

Lemma tick_keeps cfg (visits : list Visit) (tbl : gmap string Z) (p : string)
    (t : Z) :
  tbl !! p = Some t ->
  exists t', table (tick cfg visits tbl) !! p = Some t' /\ t <= t'.
Proof.
  intros Hp.
  destruct (Walk_tick_keeps cfg visits (mkTick tbl false []) p t Hp)
    as (t' & H1 & Hle).
  unfold tick.
  destruct (Walk (tickVisit cfg) visits (mkTick tbl false [])) as [st [e|]];
    simpl in *; by exists t'.
Qed.

Lemma watchLoop_keeps cfg (sel : list Select) (tbl : gmap string Z)
    (p : string) (t : Z) :
  tbl !! p = Some t ->
  exists t', (watchLoop cfg sel tbl).1.2 !! p = Some t' /\ t <= t'.
Proof.
  revert tbl t. induction sel as [|[|visits] sel IH]; intros tbl t Hp; simpl;
    [exists t; split; [done|lia] ..|].
  destruct (tick_keeps cfg visits tbl p t Hp) as (t1 & H1 & Hle).
  destruct (goes_on (tick cfg visits tbl)); simpl; [|by exists t1].
  destruct (IH (table (tick cfg visits tbl)) t1 H1) as (t2 & H2 & Hle').
  destruct (watchLoop cfg sel (table (tick cfg visits tbl))) as [[s tbl'] status].
  simpl in *. exists t2. split; [done|lia].
Qed.

(** C9, as amended: the fingerprint table only grows. Across detector
    passes every entry is kept, with a timestamp that never goes back,
    also when the file is no longer present; a pass that completes
    without error leaves an entry for every watched file it met, hence
    for every newly discovered one; and the table changes only within a
    pass: a detector that waits or is cancelled leaves it as it is. *)
Theorem table_only_grows cfg (visits : list Visit) (sel : list Select)
    (tbl : gmap string Z) :
  (forall p t, tbl !! p = Some t ->
     (exists t', table (tick cfg visits tbl) !! p = Some t' /\ t <= t') /\
     (exists t', (watchLoop cfg sel tbl).1.2 !! p = Some t' /\ t <= t')) /\
  (goes_on (tick cfg visits tbl) = true ->
   forall v, v ∈ visits -> watched cfg v = true ->
     exists t', table (tick cfg visits tbl) !! path v = Some t' /\
                ModTime (info v) <= t') /\
  (watchLoop cfg [] tbl).1.2 = tbl /\
  (watchLoop cfg (Done :: sel) tbl).1.2 = tbl.
Proof.
  split; [|split; [|done]].
  - intros p t Hp. split; [by apply tick_keeps|by apply watchLoop_keeps].
  - unfold tick.
    destruct (Walk (tickVisit cfg) visits (mkTick tbl false [])) as [st [e|]] eqn:E;
      simpl; [discriminate|].
    intros _ v Hin Hw. by eapply Walk_tick_records.
Qed.

(** A new file is recorded, a vanished one is kept. *)
Lemma table_only_grows_witness :
  let r := tick config [file "b.go" 3] {["a.go" := 1]} in
  table r !! "a.go" = Some 1 /\ exists t', table r !! "b.go" = Some t' /\ 3 <= t'.
Proof.
  pose proof (table_only_grows config [file "b.go" 3] [] {["a.go" := 1]})
    as (_ & Hnew & _).
  split.
  - vm_compute. reflexivity.
  - apply (Hnew eq_refl (file "b.go" 3)); [set_solver|vm_compute; reflexivity].
Defined.

(** C9, as stated, fails: [a.go] is recorded by the initial walk and is
    absent from the two ticks that follow, and its entry is still in the
    table after them. *)
Lemma table_keeps_vanished_file :
  let r := @watchFiles IntDurations.time config
             [file "a.go" 1; file "b.go" 1]
             [TickerC [file "b.go" 1]; TickerC [file "b.go" 1]] in
  r.1.2 !! "a.go" = Some 1 /\ size r.1.2 = 2%nat /\ r.2 = Waiting.
Proof. vm_compute. repeat split; reflexivity. Qed.

(** ** The supervisor *)

Lemma bind_Ok {A B : Type} (m : M A) (f : A -> M B) (w w' : World) (a : A)
    (out : list Event) :
  m w = Ok a w' out -> (m ≫= f) w = after out (f a w').
Proof. intros Hm. unfold mbind, M_bind, after. by rewrite Hm. Qed.

Ltac run :=
  unfold stopProcess, killAndWait, buildAndRun, Println, emit, get_cmd,
    set_cmd, field_Process, Process_Kill, Cmd_Wait, Cmd_Start, buildCmd_Run,
    panic, mbind, M_bind, mret, M_ret, not_nil;
  simpl.

Lemma stopProcess_untracked (w : World) :
  untracked w -> stopProcess w = Ok tt w [].
Proof.
  destruct w as [c ps]. intros [Hc|(c' & Hc & Hp)]; simpl in *; subst.
  - reflexivity.
  - run. by rewrite Hp.
Qed.

(** [stopProcess] on a tracked process: the three calls are made, and
    the process is not running afterwards. *)
Lemma stopProcess_tracked (w : World) (c : Cmd) (p : pid) :
  cmd w = Some c -> Process c = Some p ->
  exists w',
    stopProcess w = Ok tt w' [Printed MsgStopping; KillCall p; WaitCall] /\
    cmd w' = Some (mkCmd (Path c) (Some p) true) /\
    procs w' !! p <> Some Running /\
    length (procs w') = length (procs w) /\
    (forall q, q <> p -> procs w' !! q = procs w !! q).
Proof.
  destruct w as [c0 ps], c as [pa pr st]. simpl. intros -> ->.
  run.
  assert (forall (l : list ProcStatus) (s : ProcStatus),
            s <> Running -> <[p := s]> l !! p <> Some Running) as Hins.
  { intros l s Hs. destruct (decide (p < length l)%nat) as [Hlt|Hge].
    - rewrite list_lookup_insert_eq by done. congruence.
    - rewrite list_insert_ge by lia. rewrite lookup_ge_None_2 by lia. done. }
  destruct (ps !! p) as [[| |]|] eqn:E; simpl; destruct st; simpl;
    eexists; (split; [reflexivity|]); simpl;
    repeat split; try done;
    rewrite ?length_insert; try done;
    try (by apply Hins); try (by rewrite E);
    try (intros q Hq; by rewrite ?list_lookup_insert_ne by done).
Qed.

(** The state that [stopProcess] leaves is one that it does not change. *)
Lemma stopProcess_stopped (w : World) (pa : string) (p : pid) :
  cmd w = Some (mkCmd pa (Some p) true) ->
  procs w !! p <> Some Running ->
  stopProcess w = Ok tt w [Printed MsgStopping; KillCall p; WaitCall].
Proof.
  destruct w as [c ps]. simpl. intros -> Hp. run.
  destruct (ps !! p) as [[| |]|] eqn:E; simpl; done.
Qed.

Lemma stopProcess_total (w : World) :
  exists w' out, stopProcess w = Ok tt w' out.
Proof.
  destruct (cmd w) as [c|] eqn:Hc.
  - destruct (Process c) as [p|] eqn:Hp.
    + destruct (stopProcess_tracked w c p Hc Hp) as (w' & H & _). eauto.
    + exists w, []. apply stopProcess_untracked. right. eauto.
  - exists w, []. apply stopProcess_untracked. by left.
Qed.

Lemma stopProcess_none_running (w w' : World) (out : list Event) :
  supervised w -> stopProcess w = Ok tt w' out -> none_running w'.
Proof.
  intros Hsup Hstop p Hrun.
  destruct (cmd w) as [c|] eqn:Hc; [destruct (Process c) as [q|] eqn:Hq|].
  - destruct (stopProcess_tracked w c q Hc Hq) as (w1 & H1 & _ & Hnr & _ & Hoth).
    rewrite H1 in Hstop. injection Hstop as <- _.
    destruct (decide (p = q)) as [->|Hne]; [done|].
    rewrite (Hoth p Hne) in Hrun.
    destruct (Hsup p Hrun) as (c' & Hc' & Hp'). congruence.
  - rewrite stopProcess_untracked in Hstop by (right; eauto).
    injection Hstop as <- _.
    destruct (Hsup p Hrun) as (c' & Hc' & Hp'). congruence.
  - rewrite stopProcess_untracked in Hstop by (by left).
    injection Hstop as <- _.
    destruct (Hsup p Hrun) as (c' & Hc' & Hp'). congruence.
Qed.

(** ** The sequencer *)

Lemma buildAndRun_build_failed cfg (o : Outcome) (e : error) (w : World) :
  buildErr o = Some e ->
  buildAndRun cfg o w =
  Ok tt w [Printed MsgBuilding; BuildRun (BinaryName cfg) (MainFile cfg);
           Printed (MsgBuildFailed e)].
Proof. intros Hb. run. rewrite Hb. by destruct w. Qed.

Lemma buildAndRun_start_failed cfg (o : Outcome) (e : error) (w : World) :
  buildErr o = None -> startErr o = Some e ->
  buildAndRun cfg o w =
  Ok tt (mkWorld (Some (mkCmd (run_path cfg) None false)) (procs w))
     [Printed MsgBuilding; BuildRun (BinaryName cfg) (MainFile cfg);
      Printed MsgBuildSuccessful; Printed MsgRunningProgram;
      StartCall (run_path cfg); Printed (MsgStartError e)].
Proof. intros Hb Hs. run. rewrite Hb. simpl. by rewrite Hs. Qed.

Lemma buildAndRun_started cfg (o : Outcome) (w : World) :
  buildErr o = None -> startErr o = None ->
  buildAndRun cfg o w =
  Ok tt (mkWorld (Some (mkCmd (run_path cfg) (Some (length (procs w))) false))
                 (procs w ++ [Running]))
     [Printed MsgBuilding; BuildRun (BinaryName cfg) (MainFile cfg);
      Printed MsgBuildSuccessful; Printed MsgRunningProgram;
      StartCall (run_path cfg); Printed MsgProgramIsRunning].
Proof. intros Hb Hs. run. rewrite Hb. simpl. by rewrite Hs. Qed.

Lemma buildAndRun_total cfg (o : Outcome) (w : World) :
  exists w' out, buildAndRun cfg o w = Ok tt w' out.
Proof.
  destruct (buildErr o) as [e|] eqn:Hb.
  - rewrite (buildAndRun_build_failed cfg o e w Hb). eauto.
  - destruct (startErr o) as [e|] eqn:Hs.
    + rewrite (buildAndRun_start_failed cfg o e w Hb Hs). eauto.
    + rewrite (buildAndRun_started cfg o w Hb Hs). eauto.
Qed.

(** Called when no child runs, [buildAndRun] leaves at most the child it
    started, and [cmd] tracks it. *)
Lemma buildAndRun_supervised cfg (o : Outcome) (w w' : World)
    (out : list Event) :
  none_running w -> buildAndRun cfg o w = Ok tt w' out -> supervised w'.
Proof.
  intros Hnr Hrun p Hp.
  destruct (buildErr o) as [e|] eqn:Hb.
  - rewrite (buildAndRun_build_failed cfg o e w Hb) in Hrun.
    injection Hrun as <- _. by destruct (Hnr p).
  - destruct (startErr o) as [e|] eqn:Hs.
    + rewrite (buildAndRun_start_failed cfg o e w Hb Hs) in Hrun.
      injection Hrun as <- _. by destruct (Hnr p).
    + rewrite (buildAndRun_started cfg o w Hb Hs) in Hrun.
      injection Hrun as <- _. simpl in *.
      eexists. split; [done|]. simpl. f_equal.
      destruct (decide (p < length (procs w))%nat) as [Hlt|Hge].
      * rewrite lookup_app_l in Hp by done. by destruct (Hnr p).
      * apply lookup_lt_Some in Hp. rewrite length_app in Hp. simpl in Hp. lia.
Qed.

(** ** The coordinator *)

(** Handling one rebuild request: the process is stopped, the sequence
    runs, and the loop goes on with the events that follow. *)
Lemma loop_rebuild cfg (code : Z) (o : Outcome) (evs : list CoordinatorEvent)
    (w : World) :
  exists w1 out1 w2 out2,
    stopProcess w = Ok tt w1 out1 /\
    buildAndRun cfg o w1 = Ok tt w2 out2 /\
    loop cfg code (RebuildRequested o :: evs) w =
    after (out1 ++ out2) (loop cfg code evs w2).
Proof.
  destruct (stopProcess_total w) as (w1 & out1 & H1).
  destruct (buildAndRun_total cfg o w1) as (w2 & out2 & H2).
  exists w1, out1, w2, out2. split; [done|split; [done|]].
  simpl. rewrite (bind_Ok _ _ _ _ _ _ H1).
  rewrite (bind_Ok _ _ _ _ _ _ H2).
  destruct (loop cfg code evs w2) as [r w3 out3|]; simpl; [|done].
  by rewrite app_assoc.
Qed.

Lemma loop_result cfg (evs : list CoordinatorEvent) (code : Z) (w : World) :
  exists r w' out,
    loop cfg code evs w = Ok r w' out /\
    ((r = None /\ exists os, evs = RebuildRequested <$> os) \/
     (r = Some 1 /\ exists os e rest,
        evs = (RebuildRequested <$> os) ++ FatalError e :: rest) \/
     (r = Some code /\ exists os rest,
        evs = (RebuildRequested <$> os) ++ ShutdownRequested :: rest)).
Proof.
  revert w. induction evs as [|[o|e|] evs IH]; intros w.
  - exists None, w, []. split; [done|]. left. split; [done|]. by exists [].
  - destruct (loop_rebuild cfg code o evs w)
      as (w1 & out1 & w2 & out2 & _ & _ & ->).
    destruct (IH w2) as (r & w' & out & -> & Hr). simpl.
    exists r, w', ((out1 ++ out2) ++ out). split; [done|].
    destruct Hr as [[-> [os ->]]|[[-> (os & e & rest & ->)]|[-> (os & rest & ->)]]].
    + left. split; [done|]. by exists (o :: os).
    + right. left. split; [done|]. by exists (o :: os), e, rest.
    + right. right. split; [done|]. by exists (o :: os), rest.
  - exists (Some 1), w, [Printed (MsgFatal e)]. split; [done|].
    right. left. split; [done|]. by exists [], e, evs.
  - exists (Some code), w, [Printed MsgShuttingDown]. split; [done|].
    right. right. split; [done|]. by exists [], evs.
Qed.

(** Through the loop every running child stays the one that [cmd]
    tracks: each rebuild stops the process before it builds. *)
Lemma loop_supervised cfg (evs : list CoordinatorEvent) (code : Z)
    (w w' : World) (r : option Z) (out : list Event) :
  supervised w -> loop cfg code evs w = Ok r w' out -> supervised w'.
Proof.
  revert w out. induction evs as [|[o|e|] evs IH]; intros w out Hsup.
  - intros Hl. by injection Hl as _ <- _.
  - destruct (loop_rebuild cfg code o evs w)
      as (w1 & out1 & w2 & out2 & H1 & H2 & ->).
    destruct (loop cfg code evs w2) as [r3 w3 out3|] eqn:E; simpl;
      [|discriminate].
    intros Hl. injection Hl as <- <- _. apply (IH w2 out3); [|done].
    eapply buildAndRun_supervised; [|done].
    by eapply stopProcess_none_running.
  - intros Hl. by injection Hl as _ <- _.
  - intros Hl. by injection Hl as _ <- _.
Qed.

(** The three shapes of the event sequence exclude one another. *)
Lemma events_shape (os os' : list Outcome) (rest : list CoordinatorEvent)
    (t : CoordinatorEvent) :
  (forall o, t <> RebuildRequested o) ->
  (RebuildRequested <$> os) ++ t :: rest = RebuildRequested <$> os' -> False.
Proof.
  intros Ht. revert os'. induction os as [|o os IH]; intros [|o' os']; simpl;
    try discriminate.
  - intros [= H _]. by apply (Ht o').
  - intros [= _ H]. by apply (IH os').
Qed.

Lemma events_first (os os' : list Outcome) (rest rest' : list CoordinatorEvent)
    (t t' : CoordinatorEvent) :
  (forall o, t <> RebuildRequested o) ->
  (forall o, t' <> RebuildRequested o) ->
  (RebuildRequested <$> os) ++ t :: rest
  = (RebuildRequested <$> os') ++ t' :: rest' ->
  t = t'.
Proof.
  intros Ht Ht'. revert os'.
  induction os as [|o os IH]; intros [|o' os']; simpl.
  - by intros [= -> _].
  - intros [= -> _]. by destruct (Ht o').
  - intros [= <- _]. by destruct (Ht' o).
  - intros [= _ H]. by apply (IH os').
Qed.

Lemma exit_code_after (out : list Event) (r : result (option Z)) :
  exit_code (after out r) = exit_code r.
Proof. by destruct r. Qed.

(** The exit code that the loop yields depends on the events only. *)
Lemma loop_exit_code_world cfg (code : Z) (evs : list CoordinatorEvent)
    (w w' : World) :
  exit_code (loop cfg code evs w) = exit_code (loop cfg code evs w').
Proof.
  revert w w'. induction evs as [|[o|e|] evs IH]; intros w w'; try done.
  destruct (loop_rebuild cfg code o evs w) as (? & ? & w2 & ? & _ & _ & ->).
  destruct (loop_rebuild cfg code o evs w') as (? & ? & w2' & ? & _ & _ & ->).
  rewrite !exit_code_after. apply IH.
Qed.

Lemma loop_exit_code_rebuilds cfg (code : Z) (os : list Outcome)
    (rest : list CoordinatorEvent) (w w' : World) :
  exit_code (loop cfg code ((RebuildRequested <$> os) ++ rest) w)
  = exit_code (loop cfg code rest w').
Proof.
  revert w. induction os as [|o os IH]; intros w.
  - apply loop_exit_code_world.
  - rewrite fmap_cons, <- app_comm_cons.
    destruct (loop_rebuild cfg code o ((RebuildRequested <$> os) ++ rest) w)
      as (? & ? & w2 & ? & _ & _ & ->).
    rewrite exit_code_after. apply IH.
Qed.

(** [main]: the initial build, the loop from exit code 0, and, once the
    loop is left, the cleanup and the exit. *)
Lemma main_result cfg (o : Outcome) (evs : list CoordinatorEvent) (w : World) :
  exists r w' out w1 w2 out1 out2,
    main cfg o evs w = Ok r w' out /\
    buildAndRun cfg o w = Ok tt w1 out1 /\
    loop cfg 0 evs w1 = Ok r w2 out2 /\
    match r with
    | None => w' = w2 /\ out = out1 ++ out2
    | Some c =>
        exists out3,
          stopProcess w2 = Ok tt w' out3 /\
          out = out1 ++ out2 ++ [CancelCall] ++ out3 ++ [OsExit c]
    end.
Proof.
  destruct (buildAndRun_total cfg o w) as (w1 & out1 & H1).
  destruct (loop_result cfg evs 0 w1) as (r & w2 & out2 & H2 & _).
  unfold main. rewrite (bind_Ok _ _ _ _ _ _ H1), (bind_Ok _ _ _ _ _ _ H2).
  destruct r as [c|].
  - destruct (stopProcess_total w2) as (w3 & out3 & H3).
    exists (Some c), w3, (out1 ++ out2 ++ [CancelCall] ++ out3 ++ [OsExit c]),
      w1, w2, out1, out2.
    split; [|split; [done|split; [done|by exists out3]]].
    unfold emit, mbind, M_bind, mret, M_ret. rewrite H3. simpl.
    by rewrite ?app_nil_r.
  - exists None, w2, (out1 ++ out2), w1, w2, out1, out2.
    repeat split; try done. simpl. unfold mret, M_ret. simpl.
    by rewrite ?app_nil_r.
Qed.

Lemma main_exit_code cfg (o : Outcome) (evs : list CoordinatorEvent)
    (w : World) :
  exists w1, exit_code (main cfg o evs w) = exit_code (loop cfg 0 evs w1).
Proof.
  destruct (main_result cfg o evs w)
    as (r & w' & out & w1 & w2 & out1 & out2 & -> & _ & H2 & _).
  exists w1. by rewrite H2.
Qed.

(** C5: [main] always comes to a result; its exit status is 0 exactly
    when the first event that is not a rebuild request is the shutdown
    signal, and 1 exactly when it is a fatal error of the detector; with
    rebuild requests only, the loop is still running. The outcomes of the
    initial build and of the rebuilds, failed or not, do not enter: rebuild
    requests in front of the events leave the exit status as it is. *)
Theorem exit_status cfg (o : Outcome) (evs : list CoordinatorEvent) (w : World) :
  exists r w' out,
    main cfg o evs w = Ok r w' out /\
    (r = Some 0 <->
     exists os rest,
       evs = (RebuildRequested <$> os) ++ ShutdownRequested :: rest) /\
    (r = Some 1 <->
     exists os e rest,
       evs = (RebuildRequested <$> os) ++ FatalError e :: rest) /\
    (r = None <-> exists os, evs = RebuildRequested <$> os) /\
    (forall c, r = Some c -> exists out0, out = out0 ++ [OsExit c]) /\
    (forall o' os rest w0,
       evs = (RebuildRequested <$> os) ++ rest ->
       exit_code (main cfg o' rest w0) = r).
Proof.
  destruct (main_result cfg o evs w)
    as (r & w' & out & w1 & w2 & out1 & out2 & Hmain & _ & Hloop & Hout).
  exists r, w', out. split; [done|].
  destruct (loop_result cfg evs 0 w1) as (r' & w2' & out2' & Hloop' & Hr).
  rewrite Hloop in Hloop'. injection Hloop' as <- <- <-.
  assert (forall e o, FatalError e <> RebuildRequested o) as Hf by done.
  assert (forall o, ShutdownRequested <> RebuildRequested o) as Hs by done.
  split; [|split; [|split; [|split]]].
  - split.
    + intros ->.
      destruct Hr as [[? _]|[[? _]|[_ H]]]; [discriminate..|done].
    + intros (os & rest & ->).
      destruct Hr as [[_ [os' H]]|[[_ (os' & e & rest' & H)]|[H _]]]; [| |done].
      * by destruct (events_shape _ _ _ _ Hs H).
      * by pose proof (events_first _ _ _ _ _ _ Hs (Hf e) H).
  - split.
    + intros ->.
      destruct Hr as [[? _]|[[_ H]|[? _]]]; [discriminate|done|discriminate].
    + intros (os & e & rest & ->).
      destruct Hr as [[_ [os' H]]|[[H _]|[_ (os' & rest' & H)]]]; [|done|].
      * by destruct (events_shape _ _ _ _ (Hf e) H).
      * by pose proof (events_first _ _ _ _ _ _ (Hf e) Hs H).
  - split.
    + intros ->.
      destruct Hr as [[_ H]|[[? _]|[? _]]]; [done|discriminate..].
    + intros (os & ->).
      destruct Hr as [[H _]|[[_ (os' & e & rest' & H)]|[_ (os' & rest' & H)]]];
        [done| |].
      * by destruct (events_shape _ _ _ _ (Hf e) (eq_sym H)).
      * by destruct (events_shape _ _ _ _ Hs (eq_sym H)).
  - intros c ->. destruct Hout as (out3 & _ & ->).
    exists (out1 ++ out2 ++ [CancelCall] ++ out3).
    by rewrite <- !app_assoc.
  - intros o' os rest w0 ->.
    destruct (main_exit_code cfg o' rest w0) as (w3 & ->).
    rewrite <- (loop_exit_code_rebuilds cfg 0 os rest w1 w3).
    by rewrite Hloop.
Qed.

(** A failed initial build and a failed rebuild, then the signal: 0. *)
Lemma exit_status_witness :
  let failing := mkOutcome (Some (ExecError "exit status 1")) None in
  exit_code (main config failing
               [RebuildRequested failing; ShutdownRequested]
               (mkWorld None [])) = Some 0.
Proof.
  cbv zeta.
  destruct (exit_status config
              (mkOutcome (Some (ExecError "exit status 1")) None)
              [RebuildRequested
                 (mkOutcome (Some (ExecError "exit status 1")) None);
               ShutdownRequested]
              (mkWorld None []))
    as (r & w' & out & Hmain & H0 & _).
  rewrite Hmain. simpl. apply H0.
  exists [mkOutcome (Some (ExecError "exit status 1")) None], [].
  reflexivity.
Defined.


(** C2: when the build command fails, [buildAndRun] reports the failure
    and returns with the state as it found it: the run command is not
    started, no process is created and [cmd] still holds the process that
    was stopped. In the loop, the rebuild leaves no process running, and
    the loop goes on with the events that follow. *)
Theorem build_failure_stops_before_launch cfg (o : Outcome) (e : error)
    (w : World) :
  buildErr o = Some e ->
  supervised w ->
  buildAndRun cfg o w =
  Ok tt w [Printed MsgBuilding; BuildRun (BinaryName cfg) (MainFile cfg);
           Printed (MsgBuildFailed e)] /\
  (forall code evs,
     exists w1 out1,
       stopProcess w = Ok tt w1 out1 /\
       none_running w1 /\
       loop cfg code (RebuildRequested o :: evs) w =
       after (out1 ++ [Printed MsgBuilding;
                       BuildRun (BinaryName cfg) (MainFile cfg);
                       Printed (MsgBuildFailed e)])
             (loop cfg code evs w1)).
Proof.
  intros Hb Hsup. split; [by apply buildAndRun_build_failed|].
  intros code evs.
  destruct (loop_rebuild cfg code o evs w)
    as (w1 & out1 & w2 & out2 & H1 & H2 & Hl).
  rewrite (buildAndRun_build_failed cfg o e w1 Hb) in H2.
  injection H2 as <- <-.
  exists w1, out1. split; [done|]. split; [|done].
  by eapply stopProcess_none_running.
Qed.

Lemma build_failure_stops_before_launch_witness :
  let o := mkOutcome (Some (ExecError "exit status 1")) None in
  let w := mkWorld (Some (mkCmd "./app" (Some 0%nat) false)) [Running] in
  buildAndRun config o w =
  Ok tt w [Printed MsgBuilding; BuildRun "app" "main.go";
           Printed (MsgBuildFailed (ExecError "exit status 1"))] /\
  exit_code (loop config 0 [RebuildRequested o; ShutdownRequested] w) = Some 0.
Proof.
  simpl. split.
  - apply (build_failure_stops_before_launch config
             (mkOutcome (Some (ExecError "exit status 1")) None)
             (ExecError "exit status 1")
             (mkWorld (Some (mkCmd "./app" (Some 0%nat) false)) [Running])).
    + reflexivity.
    + intros [|p] Hp; [by eexists|]. destruct p; discriminate.
  - vm_compute. reflexivity.
Defined.

(** C6: [stopProcess] does nothing when no process is tracked, and this
    is not an error; in every state a second call in a row ends in the
    state that the first call left, in which the tracked process is not
    running (and none is, when the running children are tracked). *)
Theorem stopProcess_idempotent (w : World) :
  (untracked w -> stopProcess w = Ok tt w []) /\
  exists w1 out1 out2,
    stopProcess w = Ok tt w1 out1 /\
    stopProcess w1 = Ok tt w1 out2 /\
    (forall c p, cmd w1 = Some c -> Process c = Some p ->
                 procs w1 !! p <> Some Running) /\
    (supervised w -> none_running w1).
Proof.
  split; [apply stopProcess_untracked|].
  destruct (cmd w) as [c|] eqn:Hc; [destruct (Process c) as [p|] eqn:Hp|].
  - destruct (stopProcess_tracked w c p Hc Hp) as (w1 & H1 & Hc1 & Hnr & _).
    exists w1, [Printed MsgStopping; KillCall p; WaitCall],
      [Printed MsgStopping; KillCall p; WaitCall].
    split; [done|]. split; [by eapply stopProcess_stopped|]. split.
    + intros c' p' Hc' Hp'. rewrite Hc1 in Hc'. injection Hc' as <-.
      simpl in Hp'. by injection Hp' as <-.
    + intros Hsup. by eapply stopProcess_none_running.
  - assert (untracked w) as Hu by (right; eauto).
    exists w, [], []. rewrite !(stopProcess_untracked w Hu).
    split; [done|]. split; [done|]. split.
    + intros c' p' Hc' Hp'. congruence.
    + intros Hsup. eapply stopProcess_none_running; [done|].
      by apply stopProcess_untracked.
  - assert (untracked w) as Hu by (by left).
    exists w, [], []. rewrite !(stopProcess_untracked w Hu).
    split; [done|]. split; [done|]. split.
    + intros c' p' Hc' Hp'. congruence.
    + intros Hsup. eapply stopProcess_none_running; [done|].
      by apply stopProcess_untracked.
Qed.

Lemma stopProcess_idempotent_witness :
  stopProcess (mkWorld None []) = Ok tt (mkWorld None []) [].
Proof.
  apply (stopProcess_idempotent (mkWorld None [])). by left.
Defined.

(** C7: when the build succeeds and starting the program fails, the
    failure is reported, [cmd] holds a command whose [Process] is nil, no
    process is created, a following [stopProcess] finds nothing to kill
    and does nothing, and the loop handles the events that follow. *)
Theorem launch_failure_installs_no_handle cfg (o : Outcome) (e : error)
    (w : World) :
  buildErr o = None ->
  startErr o = Some e ->
  exists w',
    buildAndRun cfg o w =
    Ok tt w' [Printed MsgBuilding; BuildRun (BinaryName cfg) (MainFile cfg);
              Printed MsgBuildSuccessful; Printed MsgRunningProgram;
              StartCall (run_path cfg); Printed (MsgStartError e)] /\
    (exists c, cmd w' = Some c /\ Process c = None) /\
    procs w' = procs w /\
    stopProcess w' = Ok tt w' [] /\
    (forall code evs, exists r w2 out, loop cfg code evs w' = Ok r w2 out).
Proof.
  intros Hb Hs. eexists. split; [by apply buildAndRun_start_failed|].
  split; [by eexists|]. split; [done|]. split.
  - apply stopProcess_untracked. right. by eexists.
  - intros code evs.
    destruct (loop_result cfg evs code
               (mkWorld (Some (mkCmd (run_path cfg) None false)) (procs w)))
      as (r & w2 & out & H & _).
    eauto.
Qed.

Lemma launch_failure_installs_no_handle_witness :
  exists w',
    buildAndRun config (mkOutcome None (Some (ExecError "permission denied")))
                (mkWorld None []) =
    Ok tt w' [Printed MsgBuilding; BuildRun "app" "main.go";
              Printed MsgBuildSuccessful; Printed MsgRunningProgram;
              StartCall "./app";
              Printed (MsgStartError (ExecError "permission denied"))] /\
    stopProcess w' = Ok tt w' [].
Proof.
  destruct (launch_failure_installs_no_handle config
              (mkOutcome None (Some (ExecError "permission denied")))
              (ExecError "permission denied") (mkWorld None [])
              eq_refl eq_refl) as (w' & H1 & _ & _ & H2 & _).
  exists w'. split; [exact H1|exact H2].
Defined.

(** C10: [stopProcess] never faults. With [cmd] nil, and with a [cmd]
    whose [Process] is nil, it does nothing, where the same calls without
    the condition are a nil dereference; hence [main] reaches its result
    from every state, through every exit path. *)
Theorem stopProcess_never_faults (w : World) :
  (exists w' out, stopProcess w = Ok tt w' out) /\
  (cmd w = None -> stopProcess w = Ok tt w [] /\ killAndWait w = Panic) /\
  (forall c, cmd w = Some c -> Process c = None ->
             stopProcess w = Ok tt w [] /\ killAndWait w = Panic) /\
  (forall cfg o evs, exists r w' out, main cfg o evs w = Ok r w' out).
Proof.
  split; [apply stopProcess_total|]. split; [|split].
  - intros Hc. split; [apply stopProcess_untracked; by left|].
    destruct w as [c ps]. simpl in Hc. subst. reflexivity.
  - intros c Hc Hp. split; [apply stopProcess_untracked; right; eauto|].
    destruct w as [c0 ps]. simpl in Hc. subst. run. by rewrite Hp.
  - intros cfg o evs.
    destruct (main_result cfg o evs w) as (r & w' & out & _ & _ & _ & _ & H & _).
    eauto.
Qed.

Lemma stopProcess_never_faults_witness :
  stopProcess (mkWorld (Some (mkCmd "./app" None false)) [])
  = Ok tt (mkWorld (Some (mkCmd "./app" None false)) []) [] /\
  killAndWait (mkWorld (Some (mkCmd "./app" None false)) []) = Panic.
Proof.
  apply (stopProcess_never_faults
           (mkWorld (Some (mkCmd "./app" None false)) [])
         ) with (c := mkCmd "./app" None false); reflexivity.
Defined.

(** ** Walk errors *)




Section Detector.

Context `{Time}.



End Detector.


(** ** The configuration *)

Lemma fillDefaults_fields (c : Config) :
  MaxWatchers (fillDefaults c) = MaxWatchers c /\
  WatchInterval (fillDefaults c) = WatchInterval c.
Proof.
  unfold fillDefaults.
  destruct (String.eqb (MainFile c) ""); simpl;
    destruct (String.eqb (BinaryName c) ""); simpl;
    destruct (String.eqb (WatchDir c) ""); simpl;
    match goal with |- context [if ?b then _ else _] => destruct b end;
    split; reflexivity.
Qed.

Lemma clampMaxWatchers_fields (c : Config) :
  MaxWatchers (clampMaxWatchers c).1 =
  (if MaxWatchers c <? 1 then 100
   else if 500 <? MaxWatchers c then 500 else MaxWatchers c) /\
  WatchInterval (clampMaxWatchers c).1 = WatchInterval c.
Proof.
  unfold clampMaxWatchers.
  destruct (MaxWatchers c <? 1); simpl; [done|].
  destruct (500 <? MaxWatchers c); simpl; done.
Qed.

Section Configuration.

Context `{Time}.

Lemma clampWatchInterval_fields (c : Config) :
  MaxWatchers (clampWatchInterval c).1 = MaxWatchers c /\
  WatchInterval (clampWatchInterval c).1 =
  match ParseDuration (WatchInterval c) with
  | Some d =>
      if String.eqb (WatchInterval c) "" then "1s"
      else if d <? 500 * Millisecond then "500ms"
      else if 1 * Hour <? d then "1h"
      else WatchInterval c
  | None => "1s"
  end.
Proof.
  assert ((1 * Second <? 500 * Millisecond) = false) as H1 by reflexivity.
  assert ((1 * Hour <? 1 * Second) = false) as H2 by reflexivity.
  assert ((1 * Hour <? 500 * Millisecond) = false) as H3 by reflexivity.
  unfold clampWatchInterval.
  destruct (ParseDuration (WatchInterval c)) as [d|].
  - rewrite orb_false_l.
    destruct (String.eqb (WatchInterval c) "").
    + rewrite H1, H2. split; reflexivity.
    + destruct (d <? 500 * Millisecond).
      * rewrite H3. split; reflexivity.
      * destruct (1 * Hour <? d); split; reflexivity.
  - rewrite orb_true_l, H1, H2. split; reflexivity.
Qed.

Lemma validate_fields (c : Config) :
  MaxWatchers (validate c).1 =
  (if MaxWatchers c <? 1 then 100
   else if 500 <? MaxWatchers c then 500 else MaxWatchers c) /\
  WatchInterval (validate c).1 =
  match ParseDuration (WatchInterval c) with
  | Some d =>
      if String.eqb (WatchInterval c) "" then "1s"
      else if d <? 500 * Millisecond then "500ms"
      else if 1 * Hour <? d then "1h"
      else WatchInterval c
  | None => "1s"
  end.
Proof.
  unfold validate.
  destruct (fillDefaults_fields c) as [Hm Hi].
  destruct (clampMaxWatchers_fields (fillDefaults c)) as [Hm' Hi'].
  destruct (clampMaxWatchers (fillDefaults c)) as [c2 w1]. simpl in Hm', Hi'.
  destruct (clampWatchInterval_fields c2) as [Hm'' Hi''].
  destruct (clampWatchInterval c2) as [c3 w2]. simpl in *.
  rewrite Hm'', Hm', Hm, Hi'', Hi', Hi. done.
Qed.

(** X18: after a configuration file has been read and parsed without
    error, [loadConfig] returns a configuration in which [MaxWatchers]
    below 1 has become 100 and above 500 has become 500, a watch interval
    that is empty or does not parse has become "1s", one below 500ms has
    become "500ms", one above 1h has become "1h", and values in range are
    the ones of the file. *)
Theorem loadConfig_clamps (cfg0 c : Config) :
  (MaxWatchers c < 1 ->
   MaxWatchers (loadConfig cfg0 (Unmarshalled c None)).1 = 100) /\
  (500 < MaxWatchers c ->
   MaxWatchers (loadConfig cfg0 (Unmarshalled c None)).1 = 500) /\
  (1 <= MaxWatchers c <= 500 ->
   MaxWatchers (loadConfig cfg0 (Unmarshalled c None)).1 = MaxWatchers c) /\
  (WatchInterval c = "" \/ ParseDuration (WatchInterval c) = None ->
   WatchInterval (loadConfig cfg0 (Unmarshalled c None)).1 = "1s") /\
  (forall d,
     WatchInterval c <> "" ->
     ParseDuration (WatchInterval c) = Some d ->
     (d < 500 * Millisecond ->
      WatchInterval (loadConfig cfg0 (Unmarshalled c None)).1 = "500ms") /\
     (1 * Hour < d ->
      WatchInterval (loadConfig cfg0 (Unmarshalled c None)).1 = "1h") /\
     (500 * Millisecond <= d <= 1 * Hour ->
      WatchInterval (loadConfig cfg0 (Unmarshalled c None)).1
      = WatchInterval c)) /\
  1 <= MaxWatchers (loadConfig cfg0 (Unmarshalled c None)).1 <= 500.
Proof.
  unfold loadConfig. destruct (validate_fields c) as [-> ->].
  assert (500 * Millisecond < 1 * Hour) as Hlt by reflexivity.
  split; [|split; [|split; [|split; [|split]]]].
  - intros Hm. by apply Z.ltb_lt in Hm as ->.
  - intros Hm.
    destruct (Z.ltb_spec (MaxWatchers c) 1); [lia|].
    by apply Z.ltb_lt in Hm as ->.
  - intros [Hlo Hhi].
    destruct (Z.ltb_spec (MaxWatchers c) 1); [lia|].
    destruct (Z.ltb_spec 500 (MaxWatchers c)); [lia|done].
  - intros [He|Hp].
    + rewrite He. simpl. by destruct (ParseDuration "").
    + by rewrite Hp.
  - intros d Hne Hp. rewrite Hp.
    apply String.eqb_neq in Hne. rewrite Hne.
    split; [|split].
    + intros Hd. by apply Z.ltb_lt in Hd as ->.
    + intros Hd.
      destruct (Z.ltb_spec d (500 * Millisecond)); [lia|].
      by apply Z.ltb_lt in Hd as ->.
    + intros [Hlo Hhi].
      destruct (Z.ltb_spec d (500 * Millisecond)); [lia|].
      destruct (Z.ltb_spec (1 * Hour) d); [lia|done].
  - destruct (Z.ltb_spec (MaxWatchers c) 1); [lia|].
    destruct (Z.ltb_spec 500 (MaxWatchers c)); lia.
Qed.

End Configuration.

(** The scenarios of the specification: "300ms" becomes "500ms", "2h"
    becomes "1h", 0 watchers become 100 and 1000 become 500. *)
Lemma loadConfig_clamps_witness :
  let load c := (@loadConfig IntDurations.time config (Unmarshalled c None)).1 in
  WatchInterval (load (set_WatchInterval "300ms" config)) = "500ms" /\
  WatchInterval (load (set_WatchInterval "2h" config)) = "1h" /\
  MaxWatchers (load (set_MaxWatchers 0 config)) = 100 /\
  MaxWatchers (load (set_MaxWatchers 1000 config)) = 500.
Proof.
  simpl. split; [|split; [|split]].
  - apply (@loadConfig_clamps IntDurations.time config
             (set_WatchInterval "300ms" config)) with (d := 300000000);
      [discriminate|reflexivity|reflexivity].
  - apply (@loadConfig_clamps IntDurations.time config
             (set_WatchInterval "2h" config)) with (d := 7200000000000);
      [discriminate|reflexivity|reflexivity].
  - apply (@loadConfig_clamps IntDurations.time config
             (set_MaxWatchers 0 config)); reflexivity.
  - apply (@loadConfig_clamps IntDurations.time config
             (set_MaxWatchers 1000 config)); reflexivity.
Defined.

(** C8, on the code: a configuration file whose JSON has a type error in
    one field. [json.Unmarshal] has stored the fields it could decode
    (interval "300ms", 1000 watchers) when it returns its error, and
    [loadConfig] warns and returns before every check: the values stay as
    they are, out of range, where the same values in a file that parses
    become "500ms" and 500. With "0s" stored this way the ticker of the
    detector panics, and with -3 watchers the initial walk fails on the
    first file. *)
Theorem loadConfig_parse_error_skips_clamps :
  let e :=
    FileError
      "json: cannot unmarshal number into Go struct field Config.watch_dir of type string" in
  let stored := set_WatchInterval "300ms" (set_MaxWatchers 1000 config) in
  let load f := @loadConfig IntDurations.time config f in
  load (Unmarshalled stored (Some e)) = (stored, [WarnParse e]) /\
  WatchInterval (load (Unmarshalled stored (Some e))).1 = "300ms" /\
  MaxWatchers (load (Unmarshalled stored (Some e))).1 = 1000 /\
  WatchInterval (load (Unmarshalled stored None)).1 = "500ms" /\
  MaxWatchers (load (Unmarshalled stored None)).1 = 500 /\
  (@watchFiles IntDurations.time
     (load (Unmarshalled (set_WatchInterval "0s" config) (Some e))).1
     [file "a.go" 1] [TickerC []]).2 = Crashed /\
  (@watchFiles IntDurations.time
     (load (Unmarshalled (set_MaxWatchers (-3) config) (Some e))).1
     [file "a.go" 1] []).1.1 = [ErrCh (ExceededMaxWatchers (-3))].
Proof. vm_compute. repeat split; reflexivity. Qed.

(** ** The detector of revision 0.0.1 *)

(** Its callback never stops the walk. *)
Lemma rev001_Walk_tick_no_error cfg (visits : list Visit)
    (s : TickState * list Send) :
  snd (Walk (Rev001.tickVisit cfg) visits s) = None.
Proof.
  revert s. induction visits as [|v visits IH]; intros [st out]; simpl; [done|].
  unfold Rev001.tickVisit at 1.
  repeat case_match; simplify_eq; apply IH.
Qed.




(** * Further properties of the code *)

(** ** [shouldWatch]: suffixes *)

Lemma string_length_append (a b : string) :
  String.length (String.append a b) = (String.length a + String.length b)%nat.
Proof. induction a as [|c a IH]; simpl; [done|by rewrite IH]. Qed.

Lemma string_append_nil_r (s : string) : String.append s "" = s.
Proof.
  induction s as [|c s IH]; [done|].
  change (String c (String.append s "") = String c s). by rewrite IH.
Qed.

Lemma substring_whole (s : string) : substring 0 (String.length s) s = s.
Proof. induction s as [|c s IH]; simpl; [done|by rewrite IH]. Qed.

Lemma substring_after_prefix (pre suf : string) :
  substring (String.length pre) (String.length suf) (String.append pre suf)
  = suf.
Proof. induction pre as [|c pre IH]; simpl; [apply substring_whole|done]. Qed.

Lemma substring_split (s : string) (n : nat) :
  (n <= String.length s)%nat ->
  String.append (substring 0 n s) (substring n (String.length s - n) s) = s.
Proof.
  revert n. induction s as [|c s IH]; intros [|n] Hn; simpl in *;
    try done; try lia.
  - by rewrite substring_whole.
  - change (String c (String.append (substring 0 n s)
                        (substring n (String.length s - n) s)) = String c s).
    rewrite IH by lia. done.
Qed.

(** [strings.HasSuffix(s, suffix)] holds exactly when [s] is some string
    followed by [suffix]. *)
Lemma HasSuffix_spec (s suffix : string) :
  HasSuffix s suffix = true <-> exists pre, s = String.append pre suffix.
Proof.
  unfold HasSuffix. rewrite andb_true_iff, Nat.leb_le, String.eqb_eq. split.
  - intros [Hle Heq].
    exists (substring 0 (String.length s - String.length suffix) s).
    pose proof (substring_split s (String.length s - String.length suffix))
      as Hsplit.
    replace (String.length s - (String.length s - String.length suffix))%nat
      with (String.length suffix) in Hsplit by lia.
    rewrite Heq in Hsplit. symmetry. apply Hsplit. lia.
  - intros [pre ->]. rewrite string_length_append. split; [lia|].
    replace (String.length pre + String.length suffix - String.length suffix)%nat
      with (String.length pre) by lia.
    apply substring_after_prefix.
Qed.

(** X1: a file name is watched exactly when it ends with one of the
    configured extensions: with no extension configured nothing is
    watched, and an empty extension makes every name watched. *)
Theorem shouldWatch_iff_suffix cfg (filename : string) :
  (shouldWatch cfg filename = true <->
   exists ext pre,
     ext ∈ WatchExts cfg /\ filename = String.append pre ext) /\
  (WatchExts cfg = [] -> shouldWatch cfg filename = false) /\
  ("" ∈ WatchExts cfg -> shouldWatch cfg filename = true).
Proof.
  assert (forall exts,
            (fix range (exts : list string) : bool :=
               match exts with
               | [] => false
               | ext :: exts' =>
                   if HasSuffix filename ext then true else range exts'
               end) exts = true <->
            exists ext pre, ext ∈ exts /\ filename = String.append pre ext)
    as Hrange.
  { induction exts as [|ext exts IH].
    - split; [discriminate|]. intros (ext & pre & Hin & _).
      by apply elem_of_nil in Hin.
    - destruct (HasSuffix filename ext) eqn:Hs.
      + split; [intros _|done].
        apply HasSuffix_spec in Hs as [pre Hpre].
        exists ext, pre. split; [apply elem_of_cons; by left|done].
      + rewrite IH. split.
        * intros (e & pre & Hin & Hpre). exists e, pre.
          split; [apply elem_of_cons; by right|done].
        * intros (e & pre & Hin & Hpre).
          apply elem_of_cons in Hin as [Heq|Hin]; [|eauto].
          subst e.
          assert (HasSuffix filename ext = true) as Ht
            by (apply HasSuffix_spec; eauto).
          congruence. }
  unfold shouldWatch. split; [apply Hrange|]. split.
  - intros ->. reflexivity.
  - intros Hin. apply Hrange. exists "", filename. split; [done|].
    symmetry. apply string_append_nil_r.
Qed.

Lemma shouldWatch_iff_suffix_witness :
  shouldWatch (set_WatchExts [] config) "main.go" = false.
Proof.
  apply (shouldWatch_iff_suffix (set_WatchExts [] config) "main.go").
  reflexivity.
Defined.

(** ** The detector on a tree that does not change *)

Lemma Walk_tick_no_err cfg (visits : list Visit) (st st' : TickState)
    (v : Visit) :
  Walk (tickVisit cfg) visits st = (st', None) -> v ∈ visits -> err v = None.
Proof.
  revert st. induction visits as [|u visits IH]; intros st HW Hin.
  - by apply elem_of_nil in Hin.
  - simpl in HW.
    destruct (tickVisit cfg (path u) (info u) (err u) st) as [st1 [e|]] eqn:E;
      [discriminate|].
    apply elem_of_cons in Hin as [->|Hin]; [|by eapply IH].
    destruct (err u) as [e|] eqn:Hu; [|done].
    pose proof (tickVisit_error cfg u e st Hu) as H'. rewrite Hu in H'.
    congruence.
Qed.

(** A call on a file whose recorded timestamp is not older than the one
    seen changes nothing. *)
Lemma tickVisit_settled cfg (v : Visit) (st : TickState) :
  err v = None ->
  (watched cfg v = true ->
   exists t, lastModified st !! path v = Some t /\ ModTime (info v) <= t) ->
  tickVisit cfg (path v) (info v) (err v) st = (st, None).
Proof.
  unfold watched, tickVisit. intros -> Hk.
  destruct (IsDir (info v)); simpl in *; [done|].
  destruct (shouldWatch cfg (path v)); simpl in *; [|done].
  destruct (Hk eq_refl) as (t & -> & Hle).
  destruct (Z.ltb_spec t (ModTime (info v))); [lia|done].
Qed.

Lemma Walk_tick_settled cfg (visits : list Visit) (st : TickState) :
  (forall v, v ∈ visits -> err v = None) ->
  (forall v, v ∈ visits -> watched cfg v = true ->
     exists t, lastModified st !! path v = Some t /\ ModTime (info v) <= t) ->
  Walk (tickVisit cfg) visits st = (st, None).
Proof.
  induction visits as [|u visits IH]; intros Herr Hk; simpl; [done|].
  rewrite tickVisit_settled.
  - apply IH; intros v Hin; [apply Herr|apply Hk]; apply elem_of_cons; by right.
  - apply Herr. apply elem_of_cons. by left.
  - apply Hk. apply elem_of_cons. by left.
Qed.

(** X2: a change is reported once. After a tick whose walk completed,
    a tick over the same walk sends nothing, prints nothing and leaves the
    table as it is, whatever the limit on watched files. *)
Theorem tick_settles cfg (visits : list Visit) (tbl : gmap string Z) :
  goes_on (tick cfg visits tbl) = true ->
  tick cfg visits (table (tick cfg visits tbl))
  = mkResult (table (tick cfg visits tbl)) [] [] true.
Proof.
  unfold tick at 1 3 4.
  destruct (Walk (tickVisit cfg) visits (mkTick tbl false [])) as [st [e|]] eqn:E;
    simpl; [discriminate|].
  intros _. unfold tick. rewrite Walk_tick_settled; [done|..].
  - intros v Hin. by eapply Walk_tick_no_err.
  - intros v Hin Hw. simpl. by eapply Walk_tick_records.
Qed.

Lemma tick_settles_witness :
  sent (tick config [file "a.go" 5; file "b.go" 7]
          (table (tick config [file "a.go" 5; file "b.go" 7] {["a.go" := 1]})))
  = [].
Proof.
  rewrite (tick_settles config [file "a.go" 5; file "b.go" 7] {["a.go" := 1]}).
  - reflexivity.
  - vm_compute. reflexivity.
Defined.

(** The initial walk does not touch the entries of other paths. *)
Lemma Walk_initial_other cfg (visits : list Visit) (tbl : gmap string Z)
    (p : string) :
  p ∉ watched_paths cfg visits ->
  (Walk (initialVisit cfg) visits tbl).1 !! p = tbl !! p.
Proof.
  revert tbl. induction visits as [|v visits IH]; intros tbl Hp; simpl; [done|].
  simpl in Hp. destruct (watched cfg v) eqn:Hw.
  - apply not_elem_of_cons in Hp as [Hne Hp].
    rewrite (initialVisit_watched cfg v tbl Hw).
    case_match; simpl.
    + by rewrite lookup_insert_ne.
    + rewrite IH by done. by rewrite lookup_insert_ne.
  - destruct (err v) as [e|] eqn:He; [done|].
    pose proof (initialVisit_unwatched cfg v tbl He Hw) as H'.
    rewrite He in H'. rewrite H'. by apply IH.
Qed.

Lemma Walk_initial_no_err cfg (visits : list Visit) (tbl tbl' : gmap string Z)
    (v : Visit) :
  Walk (initialVisit cfg) visits tbl = (tbl', None) ->
  v ∈ visits -> err v = None.
Proof.
  revert tbl. induction visits as [|u visits IH]; intros tbl HW Hin.
  - by apply elem_of_nil in Hin.
  - simpl in HW.
    destruct (initialVisit cfg (path u) (info u) (err u) tbl) as [t1 [e|]] eqn:E;
      [discriminate|].
    apply elem_of_cons in Hin as [->|Hin]; [|by eapply IH].
    destruct (err u) as [e|] eqn:Hu; [|done].
    pose proof (initialVisit_error cfg u e tbl Hu) as H'. rewrite Hu in H'.
    congruence.
Qed.

(** An initial walk that completes records each watched file with the
    timestamp seen. *)
Lemma Walk_initial_records cfg (visits : list Visit) (tbl tbl' : gmap string Z)
    (v : Visit) :
  NoDup (watched_paths cfg visits) ->
  Walk (initialVisit cfg) visits tbl = (tbl', None) ->
  v ∈ visits -> watched cfg v = true ->
  tbl' !! path v = Some (ModTime (info v)).
Proof.
  revert tbl. induction visits as [|u visits IH]; intros tbl Hnd HW Hin Hw.
  - by apply elem_of_nil in Hin.
  - simpl in HW, Hnd.
    destruct (initialVisit cfg (path u) (info u) (err u) tbl) as [t1 [e|]] eqn:E;
      [discriminate|].
    destruct (watched cfg u) eqn:Hu.
    + apply NoDup_cons in Hnd as [Hnotin Hnd].
      apply elem_of_cons in Hin as [->|Hin]; [|by eapply IH].
      rewrite (initialVisit_watched cfg u tbl Hu) in E.
      injection E as <- _.
      pose proof (Walk_initial_other cfg visits
                    (<[path u := ModTime (info u)]> tbl) (path u) Hnotin) as Ho.
      rewrite HW in Ho. simpl in Ho. rewrite Ho. apply lookup_insert_eq.
    + apply elem_of_cons in Hin as [->|Hin]; [congruence|by eapply IH].
Qed.

Section Unchanged.

Context `{Time}.

Lemma watchLoop_unchanged cfg (visits : list Visit) (tbl : gmap string Z)
    (k : nat) :
  Walk (tickVisit cfg) visits (mkTick tbl false []) = (mkTick tbl false [], None) ->
  watchLoop cfg (replicate k (TickerC visits)) tbl = ([], tbl, Waiting).
Proof.
  intros HW. induction k as [|k IH]; simpl; [done|].
  unfold tick. rewrite HW. simpl. by rewrite IH.
Qed.

(** X3: a tree that stays as the initial walk found it never triggers a
    build. When the initial walk completes (each file met once) and the
    interval parses to a positive duration, any number of ticks over the
    same tree sends nothing, and the detector waits for the next tick with
    the table of the initial walk. *)
Theorem unchanged_tree_is_silent cfg (visits : list Visit) (d : Z) (k : nat) :
  NoDup (watched_paths cfg visits) ->
  snd (Walk (initialVisit cfg) visits ∅) = None ->
  ParseDuration (WatchInterval cfg) = Some d ->
  0 < d ->
  watchFiles cfg visits (replicate k (TickerC visits))
  = ([], fst (Walk (initialVisit cfg) visits ∅), Waiting).
Proof.
  intros Hnd HW Hp Hd. unfold watchFiles.
  destruct (Walk (initialVisit cfg) visits ∅) as [tbl [e|]] eqn:E;
    simpl in *; [discriminate|].
  rewrite Hp. destruct (Z.leb_spec d 0); [lia|].
  apply watchLoop_unchanged. apply Walk_tick_settled.
  - intros v Hin. by eapply Walk_initial_no_err.
  - intros v Hin Hw. exists (ModTime (info v)). split; [|lia].
    by eapply Walk_initial_records.
Qed.

End Unchanged.

Lemma unchanged_tree_is_silent_witness :
  (@watchFiles IntDurations.time config
     [dir "."; file "main.go" 3; file "go.mod" 1]
     (replicate 4 (TickerC [dir "."; file "main.go" 3; file "go.mod" 1]))).1.1
  = [].
Proof.
  rewrite (@unchanged_tree_is_silent IntDurations.time config
             [dir "."; file "main.go" 3; file "go.mod" 1] 1000000000 4).
  - reflexivity.
  - apply (bool_decide_unpack (NoDup _)). vm_compute. exact I.
  - vm_compute. reflexivity.
  - reflexivity.
  - reflexivity.
Defined.

(** ** What the detector sends *)

Lemma tick_sent_shape cfg (visits : list Visit) (tbl : gmap string Z) :
  (goes_on (tick cfg visits tbl) = true /\
   (sent (tick cfg visits tbl) = [] \/ sent (tick cfg visits tbl) = [BuildCh])) \/
  (goes_on (tick cfg visits tbl) = false /\
   exists e, sent (tick cfg visits tbl) = [ErrCh e]).
Proof.
  unfold tick.
  destruct (Walk (tickVisit cfg) visits (mkTick tbl false [])) as [st [e|]];
    simpl; [right; eauto|left].
  split; [done|]. destruct (changes st); eauto.
Qed.

Lemma watchLoop_sent_shape cfg (sel : list Select) (tbl : gmap string Z) :
  exists n : nat,
    (n <= length sel)%nat /\
    ((watchLoop cfg sel tbl).1.1 = replicate n BuildCh \/
     exists e,
       (watchLoop cfg sel tbl).1.1 = replicate n BuildCh ++ [ErrCh e] /\
       (watchLoop cfg sel tbl).2 = Stopped) /\
    (watchLoop cfg sel tbl).2 <> Crashed.
Proof.
  revert tbl. induction sel as [|[|visits] sel IH]; intros tbl; simpl.
  - exists 0%nat. split; [lia|]. split; [by left|done].
  - exists 0%nat. split; [lia|]. split; [by left|done].
  - destruct (tick_sent_shape cfg visits tbl) as [[-> Hs]|[-> [e Hs]]].
    + destruct (IH (table (tick cfg visits tbl))) as (n & Hn & Hsh & Hc).
      destruct (watchLoop cfg sel (table (tick cfg visits tbl)))
        as [[s tbl'] status].
      simpl in *.
      destruct Hs as [-> | ->]; simpl.
      * exists n. split; [lia|]. done.
      * exists (S n). split; [lia|]. split; [|done]. simpl.
        destruct Hsh as [-> | (e & -> & ->)]; [by left|right; eauto].
    + rewrite Hs. exists 0%nat. simpl. split; [lia|]. split; [|done].
      right. by exists e.
Qed.

Section Sends.

Context `{Time}.

(** X4: over a whole run the detector sends build notifications, at most
    one per tick, and at most one error; an error is the last thing it
    sends, and the detector has returned after it. (The error channel
    holds one value: the send of this one error does not wait for the
    coordinator.) *)
Theorem watchFiles_sends_one_error_last cfg (initial : list Visit)
    (sel : list Select) :
  exists n : nat,
    (n <= length sel)%nat /\
    ((watchFiles cfg initial sel).1.1 = replicate n BuildCh \/
     exists e,
       (watchFiles cfg initial sel).1.1 = replicate n BuildCh ++ [ErrCh e] /\
       (watchFiles cfg initial sel).2 = Stopped).
Proof.
  unfold watchFiles.
  destruct (Walk (initialVisit cfg) initial ∅) as [tbl [e|]].
  - exists 0%nat. split; [lia|]. right. by exists e.
  - destruct (ParseDuration (WatchInterval cfg)) as [d|].
    + destruct (d <=? 0).
      * exists 0%nat. split; [lia|]. by left.
      * destruct (watchLoop_sent_shape cfg sel tbl) as (n & Hn & Hsh & _).
        by exists n.
    + exists 0%nat. split; [lia|]. right. by eexists.
Qed.

End Sends.

(** X5: cancellation. Once the detector has seen [ctx.Done()] it returns:
    the ticks that would follow are not walked, so what it sent and its
    table are those of the run up to the cancellation. *)
Theorem watchLoop_cancelled cfg (sel rest : list Select) (tbl : gmap string Z) :
  (watchLoop cfg (sel ++ Done :: rest) tbl).1 = (watchLoop cfg sel tbl).1 /\
  (watchLoop cfg (sel ++ Done :: rest) tbl).2 = Stopped.
Proof.
  revert tbl. induction sel as [|[|visits] sel IH]; intros tbl; simpl; try done.
  destruct (goes_on (tick cfg visits tbl)); [|done].
  destruct (IH (table (tick cfg visits tbl))) as [H1 H2].
  destruct (watchLoop cfg (sel ++ Done :: rest) (table (tick cfg visits tbl)))
    as [[s1 t1] st1].
  destruct (watchLoop cfg sel (table (tick cfg visits tbl))) as [[s2 t2] st2].
  simpl in *. by injection H1 as -> ->.
Qed.

(** ** The two revisions *)

Lemma rev001_Walk_tick_agrees cfg (visits : list Visit) (st st' : TickState)
    (out : list Send) :
  Walk (tickVisit cfg) visits st = (st', None) ->
  Walk (Rev001.tickVisit cfg) visits (st, out) = ((st', out), None).
Proof.
  revert st. induction visits as [|v visits IH]; intros st; cbn [Walk].
  - by intros [= ->].
  - destruct (tickVisit cfg (path v) (info v) (err v) st) as [st1 [e|]] eqn:E;
      [discriminate|].
    intros HW.
    assert (Rev001.tickVisit cfg (path v) (info v) (err v) (st, out)
            = ((st1, out), None)) as ->; [|by apply IH].
    revert E. unfold tickVisit, Rev001.tickVisit.
    destruct (err v); [discriminate|].
    destruct (IsDir (info v) || negb (shouldWatch cfg (path v)));
      [by intros [= ->]|].
    destruct (lastModified st !! path v) as [t|].
    + destruct (t <? ModTime (info v)); by intros [= ->].
    + case_match; [discriminate|]. by intros [= ->].
Qed.

(** X6: on a tick whose walk completes in revision 0.0.3 (no walk error,
    limit not reached), revision 0.0.1 behaves the same: same table, same
    notification, same printed paths. *)
Theorem revisions_agree_on_completed_ticks cfg (visits : list Visit)
    (tbl : gmap string Z) :
  goes_on (tick cfg visits tbl) = true ->
  Rev001.tick cfg visits tbl = tick cfg visits tbl.
Proof.
  unfold tick, Rev001.tick.
  destruct (Walk (tickVisit cfg) visits (mkTick tbl false [])) as [st [e|]] eqn:E;
    simpl; [discriminate|].
  intros _. by rewrite (rev001_Walk_tick_agrees cfg visits _ st [] E).
Qed.

Lemma revisions_agree_on_completed_ticks_witness :
  Rev001.tick config [file "a.go" 5; file "b.go" 7] {["a.go" := 1]}
  = tick config [file "a.go" 5; file "b.go" 7] {["a.go" := 1]}.
Proof.
  apply (revisions_agree_on_completed_ticks config
           [file "a.go" 5; file "b.go" 7] {["a.go" := 1]}).
  vm_compute. reflexivity.
Defined.

(** The initial walk below the limit: two files, limit 2. *)
Lemma initial_walk_limit_witness :
  snd (Walk (initialVisit (set_MaxWatchers 2 config))
         [dir "."; file "a.go" 1; file "b.go" 1] ∅) = None.
Proof.
  apply (initial_walk_limit (set_MaxWatchers 2 config)
           [dir "."; file "a.go" 1; file "b.go" 1]).
  - repeat constructor.
  - apply (bool_decide_unpack (NoDup _)). vm_compute. exact I.
  - vm_compute. discriminate.
  - vm_compute. discriminate.
Defined.

(** ** The limit in a tick *)

Lemma count_new_ext (t1 t2 : gmap string Z) (ps : list string) :
  (forall p, p ∈ ps -> t1 !! p = None <-> t2 !! p = None) ->
  count_new t1 ps = count_new t2 ps.
Proof.
  induction ps as [|p ps IH]; intros Hext; simpl; [done|].
  rewrite IH by (intros q Hq; apply Hext, elem_of_cons; by right).
  assert (t1 !! p = None <-> t2 !! p = None) as Hp
    by (apply Hext, elem_of_cons; by left).
  destruct (t1 !! p), (t2 !! p); try done; destruct Hp as [H1 H2];
    [specialize (H2 eq_refl)|specialize (H1 eq_refl)]; discriminate.
Qed.

Lemma tickVisit_unwatched cfg (v : Visit) (st : TickState) :
  err v = None -> watched cfg v = false ->
  tickVisit cfg (path v) (info v) (err v) st = (st, None).
Proof.
  unfold tickVisit, watched. intros ->.
  destruct (IsDir (info v)); simpl; [done|].
  by destruct (shouldWatch cfg (path v)).
Qed.

(** A call on a watched file that the table holds: no limit check. *)
Lemma tickVisit_known cfg (v : Visit) (st : TickState) (t : Z) :
  watched cfg v = true ->
  lastModified st !! path v = Some t ->
  exists st',
    tickVisit cfg (path v) (info v) (err v) st = (st', None) /\
    size (lastModified st') = size (lastModified st) /\
    forall p, lastModified st' !! p = None <-> lastModified st !! p = None.
Proof.
  unfold watched, tickVisit.
  destruct (err v); [discriminate|].
  destruct (IsDir (info v)); simpl; [discriminate|].
  destruct (shouldWatch cfg (path v)); simpl; [intros _|discriminate].
  intros Ht. rewrite Ht.
  destruct (t <? ModTime (info v)); eexists; (split; [reflexivity|]); simpl;
    [|done].
  split.
  - by erewrite map_size_insert_Some.
  - intros p. rewrite lookup_insert. case_decide; [|done].
    subst p. rewrite Ht. done.
Qed.

(** A call on a watched file that the table does not hold: the file is
    recorded, then the size of the table is compared with the limit. *)
Lemma tickVisit_new cfg (v : Visit) (st : TickState) :
  watched cfg v = true ->
  lastModified st !! path v = None ->
  exists st',
    tickVisit cfg (path v) (info v) (err v) st =
    (st', if MaxWatchers cfg <=? Z.of_nat (S (size (lastModified st)))
          then Some (ExceededMaxWatchers (MaxWatchers cfg)) else None) /\
    lastModified st' = <[path v := ModTime (info v)]> (lastModified st).
Proof.
  unfold watched, tickVisit.
  destruct (err v); [discriminate|].
  destruct (IsDir (info v)); simpl; [discriminate|].
  destruct (shouldWatch cfg (path v)); simpl; [intros _|discriminate].
  intros Hn. rewrite Hn. simpl.
  rewrite (map_size_insert_None _ _ _ Hn).
  exists (mkTick (<[path v := ModTime (info v)]> (lastModified st)) true
                 (reported st ++ [path v])).
  split; [|reflexivity]. by case_match.
Qed.

Lemma Walk_tick_limit cfg (visits : list Visit) (st : TickState) :
  (forall v, v ∈ visits -> err v = None) ->
  NoDup (watched_paths cfg visits) ->
  snd (Walk (tickVisit cfg) visits st) =
  if (0 <? count_new (lastModified st) (watched_paths cfg visits))%nat &&
     (MaxWatchers cfg
      <=? Z.of_nat (size (lastModified st)
                    + count_new (lastModified st) (watched_paths cfg visits)))
  then Some (ExceededMaxWatchers (MaxWatchers cfg)) else None.
Proof.
  revert st. induction visits as [|v visits IH]; intros st Herr Hnd; [done|].
  assert (forall u, u ∈ visits -> err u = None) as Herr'
    by (intros u Hu; apply Herr, elem_of_cons; by right).
  assert (err v = None) as Hv by (apply Herr, elem_of_cons; by left).
  cbn [Walk watched_paths] in *.
  destruct (watched cfg v) eqn:Hw.
  - apply NoDup_cons in Hnd as [Hnotin Hnd]. cbn [count_new].
    destruct (lastModified st !! path v) as [t|] eqn:Ht.
    + destruct (tickVisit_known cfg v st t Hw Ht) as (st1 & -> & Hsz & Hdom).
      rewrite (IH st1 Herr' Hnd), Hsz.
      by rewrite (count_new_ext (lastModified st1) (lastModified st)).
    + destruct (tickVisit_new cfg v st Hw Ht) as (st1 & -> & Htbl).
      destruct (Z.leb_spec (MaxWatchers cfg) (Z.of_nat (S (size (lastModified st)))))
        as [Hle|Hgt].
      * simpl.
        destruct (Z.leb_spec (MaxWatchers cfg)
                    (Z.of_nat (size (lastModified st)
                               + S (count_new (lastModified st)
                                      (watched_paths cfg visits)))));
          [done|lia].
      * rewrite (IH st1 Herr' Hnd), Htbl, (map_size_insert_None _ _ _ Ht).
        rewrite (count_new_ext (<[path v := ModTime (info v)]> (lastModified st))
                   (lastModified st)).
        2:{ intros p Hp. rewrite lookup_insert_ne; [done|]. by intros <-. }
        destruct (count_new (lastModified st) (watched_paths cfg visits))
          as [|k]; simpl.
        -- destruct (Z.leb_spec (MaxWatchers cfg)
                       (Z.of_nat (size (lastModified st) + 1))); [lia|done].
        -- replace (S (size (lastModified st) + S k))%nat
             with (size (lastModified st) + S (S k))%nat by lia.
           done.
  - rewrite (tickVisit_unwatched cfg v st Hv Hw). by apply IH.
Qed.

(** X7: the limit in a tick is checked on discovery only. For a walk
    without error that meets each file once, the tick fails with the limit
    error exactly when it discovers files and those would bring the table
    to [MaxWatchers] entries or more; files that the table holds never
    make a tick fail, however large the table is. *)
Theorem tick_limit_on_discovery cfg (visits : list Visit)
    (tbl : gmap string Z) :
  (forall v, v ∈ visits -> err v = None) ->
  NoDup (watched_paths cfg visits) ->
  (sent (tick cfg visits tbl) = [ErrCh (ExceededMaxWatchers (MaxWatchers cfg))]
   <-> (0 < count_new tbl (watched_paths cfg visits))%nat /\
       MaxWatchers cfg
       <= Z.of_nat (size tbl + count_new tbl (watched_paths cfg visits))) /\
  (goes_on (tick cfg visits tbl) = true
   <-> count_new tbl (watched_paths cfg visits) = 0%nat \/
       Z.of_nat (size tbl + count_new tbl (watched_paths cfg visits))
       < MaxWatchers cfg).
Proof.
  intros Herr Hnd.
  pose proof (Walk_tick_limit cfg visits (mkTick tbl false []) Herr Hnd) as HW.
  simpl in HW. unfold tick.
  destruct (Walk (tickVisit cfg) visits (mkTick tbl false [])) as [st r].
  simpl in HW. subst r.
  set (k := count_new tbl (watched_paths cfg visits)) in *.
  destruct (Nat.ltb_spec 0 k) as [Hk|Hk];
    destruct (Z.leb_spec (MaxWatchers cfg) (Z.of_nat (size tbl + k)))
      as [Hm|Hm]; simpl.
  all: split; split; try done; try lia; by destruct (changes st).
Qed.

(** A table above the limit, and a tick that finds no new file. *)
Lemma tick_limit_on_discovery_witness :
  goes_on (tick (set_MaxWatchers 1 config) [file "a.go" 2; file "b.go" 2]
             {["a.go" := 1; "b.go" := 1]}) = true.
Proof.
  apply (tick_limit_on_discovery (set_MaxWatchers 1 config)
           [file "a.go" 2; file "b.go" 2] {["a.go" := 1; "b.go" := 1]}).
  - intros v Hv. repeat (apply elem_of_cons in Hv as [->|Hv]; [reflexivity|]).
    by apply elem_of_nil in Hv.
  - apply (bool_decide_unpack (NoDup _)). vm_compute. exact I.
  - left. vm_compute. reflexivity.
Defined.

(** ** Configurations that pass the checks *)

Lemma fillDefaults_strings (c : Config) :
  MainFile (fillDefaults c)
  = (if String.eqb (MainFile c) "" then "main.go" else MainFile c) /\
  BinaryName (fillDefaults c)
  = (if String.eqb (BinaryName c) "" then "app" else BinaryName c) /\
  WatchDir (fillDefaults c)
  = (if String.eqb (WatchDir c) "" then "." else WatchDir c) /\
  WatchExts (fillDefaults c)
  = (if (length (WatchExts c) =? 0)%nat then [".go"; ".mod"; ".sum"]
     else WatchExts c).
Proof.
  unfold fillDefaults.
  destruct (String.eqb (MainFile c) ""); simpl;
    destruct (String.eqb (BinaryName c) ""); simpl;
    destruct (String.eqb (WatchDir c) ""); simpl;
    destruct (length (WatchExts c) =? 0)%nat; simpl; done.
Qed.

Lemma clampMaxWatchers_strings (c : Config) :
  MainFile (clampMaxWatchers c).1 = MainFile c /\
  BinaryName (clampMaxWatchers c).1 = BinaryName c /\
  WatchDir (clampMaxWatchers c).1 = WatchDir c /\
  WatchExts (clampMaxWatchers c).1 = WatchExts c.
Proof.
  unfold clampMaxWatchers.
  destruct (MaxWatchers c <? 1); [done|].
  by destruct (500 <? MaxWatchers c).
Qed.

Section ValidConfig.

Context `{Time}.

Lemma clampWatchInterval_strings (c : Config) :
  MainFile (clampWatchInterval c).1 = MainFile c /\
  BinaryName (clampWatchInterval c).1 = BinaryName c /\
  WatchDir (clampWatchInterval c).1 = WatchDir c /\
  WatchExts (clampWatchInterval c).1 = WatchExts c.
Proof.
  unfold clampWatchInterval.
  destruct (ParseDuration (WatchInterval c)) as [d|].
  - rewrite orb_false_l.
    destruct (String.eqb (WatchInterval c) "").
    + destruct (1 * Second <? 500 * Millisecond);
        match goal with |- context [if ?b then _ else _] => destruct b end;
        done.
    + destruct (d <? 500 * Millisecond);
        match goal with |- context [if ?b then _ else _] => destruct b end;
        done.
  - rewrite orb_true_l.
    destruct (1 * Second <? 500 * Millisecond);
      match goal with |- context [if ?b then _ else _] => destruct b end;
      done.
Qed.

Lemma validate_strings (c : Config) :
  MainFile (validate c).1
  = (if String.eqb (MainFile c) "" then "main.go" else MainFile c) /\
  BinaryName (validate c).1
  = (if String.eqb (BinaryName c) "" then "app" else BinaryName c) /\
  WatchDir (validate c).1
  = (if String.eqb (WatchDir c) "" then "." else WatchDir c) /\
  WatchExts (validate c).1
  = (if (length (WatchExts c) =? 0)%nat then [".go"; ".mod"; ".sum"]
     else WatchExts c).
Proof.
  unfold validate.
  destruct (fillDefaults_strings c) as (<- & <- & <- & <-).
  destruct (clampMaxWatchers_strings (fillDefaults c)) as (<- & <- & <- & <-).
  destruct (clampMaxWatchers (fillDefaults c)) as [c2 w1]. simpl.
  destruct (clampWatchInterval_strings c2) as (<- & <- & <- & <-).
  by destruct (clampWatchInterval c2) as [c3 w2].
Qed.

(** The checks establish the invariants of a configuration. *)
Lemma validate_is_valid (c : Config) :
  parses_literals -> valid_config (validate c).1.
Proof.
  intros (Hs & Hms & Hh).
  destruct (validate_strings c) as (Hmf & Hbn & Hwd & Hwe).
  destruct (validate_fields c) as (Hmw & Hwi).
  assert (500 * Millisecond <= Second <= 1 * Hour) as HS by (split; discriminate).
  assert (500 * Millisecond <= 1 * Hour) as HMH by discriminate.
  unfold valid_config; repeat split.
  - rewrite Hmf. destruct (String.eqb_spec (MainFile c) ""); done.
  - rewrite Hbn. destruct (String.eqb_spec (BinaryName c) ""); done.
  - rewrite Hwd. destruct (String.eqb_spec (WatchDir c) ""); done.
  - rewrite Hwe. destruct (WatchExts c); done.
  - rewrite Hmw. destruct (Z.ltb_spec (MaxWatchers c) 1); [lia|].
    destruct (Z.ltb_spec 500 (MaxWatchers c)); lia.
  - rewrite Hmw. destruct (Z.ltb_spec (MaxWatchers c) 1); [lia|].
    destruct (Z.ltb_spec 500 (MaxWatchers c)); lia.
  - rewrite Hwi. destruct (ParseDuration (WatchInterval c)) as [d|]; [|done].
    destruct (String.eqb_spec (WatchInterval c) ""); [done|].
    destruct (d <? 500 * Millisecond); [done|].
    by destruct (1 * Hour <? d).
  - rewrite Hwi.
    destruct (ParseDuration (WatchInterval c)) as [d|] eqn:Hp;
      [|exists Second; by rewrite Hs].
    destruct (String.eqb_spec (WatchInterval c) "");
      [exists Second; by rewrite Hs|].
    destruct (Z.ltb_spec d (500 * Millisecond));
      [exists (500 * Millisecond); rewrite Hms; split; [done|lia]|].
    destruct (Z.ltb_spec (1 * Hour) d);
      [exists Hour; split; [exact Hh|lia]|].
    exists d. rewrite Hp. split; [done|lia].
Qed.

(** X8: whatever the file holds, a configuration that has been loaded
    and checked has no empty field, a limit between 1 and 500 and an
    interval that parses to a duration between 500ms and one hour; the
    fields of the file that are not empty are kept. (The interval strings
    that the checks write are assumed to parse to their durations.) *)
Theorem loadConfig_yields_valid_config (cfg0 c : Config) :
  parses_literals ->
  valid_config (loadConfig cfg0 (Unmarshalled c None)).1 /\
  (MainFile c <> "" ->
   MainFile (loadConfig cfg0 (Unmarshalled c None)).1 = MainFile c) /\
  (BinaryName c <> "" ->
   BinaryName (loadConfig cfg0 (Unmarshalled c None)).1 = BinaryName c) /\
  (WatchDir c <> "" ->
   WatchDir (loadConfig cfg0 (Unmarshalled c None)).1 = WatchDir c) /\
  (WatchExts c <> [] ->
   WatchExts (loadConfig cfg0 (Unmarshalled c None)).1 = WatchExts c).
Proof.
  intros Hlit. unfold loadConfig.
  destruct (validate_strings c) as (Hmf & Hbn & Hwd & Hwe).
  split; [by apply validate_is_valid|repeat split].
  - intros Hne. rewrite Hmf. by destruct (String.eqb_spec (MainFile c) "").
  - intros Hne. rewrite Hbn. by destruct (String.eqb_spec (BinaryName c) "").
  - intros Hne. rewrite Hwd. by destruct (String.eqb_spec (WatchDir c) "").
  - intros Hne. rewrite Hwe. by destruct (WatchExts c).
Qed.

(** X9: a valid configuration passes the checks unchanged and without a
    warning; hence checking twice is the same as checking once. *)
Theorem validate_valid_config (c : Config) :
  (valid_config c -> validate c = (c, [])) /\
  (parses_literals -> validate (validate c).1 = ((validate c).1, [])).
Proof.
  assert (forall c, valid_config c -> validate c = (c, [])) as Hvalid.
  { clear c. intros c (Hmf & Hbn & Hwd & Hwe & [Hlo Hhi] & Hwi & d & Hp & Hd1 & Hd2).
    unfold validate, fillDefaults.
    apply String.eqb_neq in Hmf, Hbn, Hwd. rewrite Hmf, Hbn, Hwd.
    assert ((length (WatchExts c) =? 0)%nat = false) as ->
      by (destruct (WatchExts c); done).
    unfold clampMaxWatchers.
    assert ((MaxWatchers c <? 1) = false) as -> by (apply Z.ltb_ge; lia).
    assert ((500 <? MaxWatchers c) = false) as -> by (apply Z.ltb_ge; lia).
    unfold clampWatchInterval. rewrite Hp.
    apply String.eqb_neq in Hwi. rewrite Hwi. simpl orb. cbv iota beta.
    assert ((d <? 500 * Millisecond) = false) as -> by (apply Z.ltb_ge; lia).
    assert ((1 * Hour <? d) = false) as -> by (apply Z.ltb_ge; lia).
    reflexivity. }
  split; [apply Hvalid|].
  intros Hlit. apply Hvalid. by apply validate_is_valid.
Qed.

(** X10: with a loaded and checked configuration the detector never
    stops on its interval: it neither sends "Invalid watch interval" nor
    makes [time.NewTicker] panic, and runs its loop whenever the initial
    walk completes. *)
Theorem watchFiles_after_loadConfig (cfg0 c : Config) (initial : list Visit)
    (sel : list Select) :
  parses_literals ->
  watchFiles (loadConfig cfg0 (Unmarshalled c None)).1 initial sel =
  match Walk (initialVisit (loadConfig cfg0 (Unmarshalled c None)).1) initial ∅
  with
  | (tbl, Some e) => ([ErrCh e], tbl, Stopped)
  | (tbl, None) => watchLoop (loadConfig cfg0 (Unmarshalled c None)).1 sel tbl
  end /\
  (watchFiles (loadConfig cfg0 (Unmarshalled c None)).1 initial sel).2
  <> Crashed.
Proof.
  intros Hlit.
  destruct (validate_is_valid c Hlit) as (_ & _ & _ & _ & _ & _ & d & Hp & Hd & _).
  change (validate c).1 with (loadConfig cfg0 (Unmarshalled c None)).1 in Hp.
  set (cfg := (loadConfig cfg0 (Unmarshalled c None)).1) in *.
  assert (0 < 500 * Millisecond) as Hpos by done.
  unfold watchFiles.
  destruct (Walk (initialVisit cfg) initial ∅) as [tbl [e|]]; [done|].
  rewrite Hp. destruct (Z.leb_spec d 0); [lia|].
  split; [done|].
  by destruct (watchLoop_sent_shape cfg sel tbl) as (_ & _ & _ & Hc).
Qed.

End ValidConfig.

Lemma loadConfig_yields_valid_config_witness :
  @valid_config IntDurations.time
    (@loadConfig IntDurations.time config
       (Unmarshalled (mkConfig "" "" "" [] "10ms" 0) None)).1.
Proof.
  exact (proj1 (@loadConfig_yields_valid_config IntDurations.time config
                  (mkConfig "" "" "" [] "10ms" 0)
                  (conj eq_refl (conj eq_refl eq_refl)))).
Defined.

Lemma validate_valid_config_witness :
  @validate IntDurations.time config = (config, []).
Proof.
  apply (proj1 (@validate_valid_config IntDurations.time config)).
  unfold valid_config. repeat split; try discriminate.
  exists Second. repeat split; discriminate.
Defined.

Lemma watchFiles_after_loadConfig_witness :
  (@watchFiles IntDurations.time
     (@loadConfig IntDurations.time config
        (Unmarshalled (set_WatchInterval "0s" config) None)).1
     [file "a.go" 1] [TickerC [file "a.go" 1]]).2 = Waiting.
Proof.
  rewrite (proj1 (@watchFiles_after_loadConfig IntDurations.time config
                    (set_WatchInterval "0s" config) [file "a.go" 1]
                    [TickerC [file "a.go" 1]]
                    (conj eq_refl (conj eq_refl eq_refl)))).
  vm_compute. reflexivity.
Defined.

(** ** The children of the program *)

Lemma stopProcess_lookup (w w' : World) (c : Cmd) (p : pid)
    (out : list Event) :
  cmd w = Some c -> Process c = Some p ->
  stopProcess w = Ok tt w' out ->
  forall q s,
    procs w' !! q = Some s ->
    (q <> p /\ procs w !! q = Some s) \/
    (q = p /\ ProcessState c = false /\ s = Reaped) \/
    (q = p /\ ProcessState c = true /\ s <> Running /\
     (procs w !! p = Some s \/ procs w !! p = Some Running)).
Proof.
  destruct w as [c0 ps], c as [pa pr st]. simpl. intros -> ->.
  run.
  assert (forall (l : list ProcStatus) (x : ProcStatus) (q : nat) s,
            <[p := x]> l !! q = Some s ->
            (q <> p /\ l !! q = Some s) \/ (q = p /\ s = x)) as Hins.
  { intros l x q s Hq. destruct (decide (q = p)) as [->|Hne].
    - right. split; [done|].
      destruct (decide (p < length l)%nat).
      + rewrite list_lookup_insert_eq in Hq by done. congruence.
      + rewrite list_insert_ge in Hq by lia.
        apply lookup_lt_Some in Hq. lia.
    - left. by rewrite list_lookup_insert_ne in Hq. }
  destruct (ps !! p) as [[| |]|] eqn:E; simpl; destruct st; simpl;
    intros [= <- <-] q s Hq; simpl in *.
  - apply Hins in Hq as [[Hne Hq]|[-> ->]]; [by left|].
    right. right. repeat split; try done. by right.
  - apply Hins in Hq as [[Hne Hq]|[-> ->]]; [|by right; left].
    apply Hins in Hq as [[_ Hq]|[-> _]]; [by left|done].
  - destruct (decide (q = p)) as [->|Hne]; [|by left].
    right. right. rewrite E in Hq. injection Hq as <-.
    repeat split; try done. by left.
  - apply Hins in Hq as [[Hne Hq]|[-> ->]]; [by left|by right; left].
  - destruct (decide (q = p)) as [->|Hne]; [|by left].
    right. right. rewrite E in Hq. injection Hq as <-.
    repeat split; try done. by left.
  - apply Hins in Hq as [[Hne Hq]|[-> ->]]; [by left|by right; left].
  - destruct (decide (q = p)) as [->|Hne]; [|by left]. congruence.
  - apply Hins in Hq as [[Hne Hq]|[-> ->]]; [by left|by right; left].
Qed.

(** [stopProcess] leaves every child terminated and waited for. *)
Lemma stopProcess_reaps (w w' : World) (out : list Event) :
  one_child w -> stopProcess w = Ok tt w' out -> all_reaped w'.
Proof.
  intros Hone Hstop q s Hq.
  destruct (cmd w) as [c|] eqn:Hc; [destruct (Process c) as [p|] eqn:Hp|].
  - destruct (stopProcess_lookup w w' c p out Hc Hp Hstop q s Hq)
      as [[Hne Hq']|[(-> & _ & ->)|(-> & Hst & Hnr & [Hq'|Hq'])]]; [|done| |].
    + destruct (Hone q s Hq') as [->|(-> & c' & Hc' & Hp' & _)]; [done|].
      congruence.
    + destruct (Hone p s Hq') as [->|(-> & _)]; done.
    + destruct (Hone p Running Hq') as [?|(_ & c' & Hc' & _ & Hst')];
        [done|congruence].
  - rewrite stopProcess_untracked in Hstop by (right; eauto).
    injection Hstop as <- _.
    destruct (Hone q s Hq) as [->|(-> & c' & Hc' & Hp' & _)]; [done|congruence].
  - rewrite stopProcess_untracked in Hstop by (by left).
    injection Hstop as <- _.
    destruct (Hone q s Hq) as [->|(-> & c' & Hc' & Hp' & _)]; [done|congruence].
Qed.

Lemma buildAndRun_one_child cfg (o : Outcome) (w w' : World)
    (out : list Event) :
  all_reaped w -> buildAndRun cfg o w = Ok tt w' out -> one_child w'.
Proof.
  intros Hall Hrun p s Hp.
  destruct (buildErr o) as [e|] eqn:Hb.
  - rewrite (buildAndRun_build_failed cfg o e w Hb) in Hrun.
    injection Hrun as <- _. left. by eapply Hall.
  - destruct (startErr o) as [e|] eqn:Hs.
    + rewrite (buildAndRun_start_failed cfg o e w Hb Hs) in Hrun.
      injection Hrun as <- _. left. by eapply Hall.
    + rewrite (buildAndRun_started cfg o w Hb Hs) in Hrun.
      injection Hrun as <- _. simpl in *.
      destruct (decide (p < length (procs w))%nat) as [Hlt|Hge].
      * rewrite lookup_app_l in Hp by done. left. by eapply Hall.
      * pose proof (lookup_lt_Some _ _ _ Hp) as Hlen.
        rewrite length_app in Hlen. simpl in Hlen.
        assert (p = length (procs w)) as -> by lia.
        rewrite list_lookup_middle in Hp by done. injection Hp as <-.
        right. split; [done|]. by eexists.
Qed.

Lemma loop_one_child cfg (evs : list CoordinatorEvent) (code : Z)
    (w w' : World) (r : option Z) (out : list Event) :
  one_child w -> loop cfg code evs w = Ok r w' out -> one_child w'.
Proof.
  revert w out. induction evs as [|[o|e|] evs IH]; intros w out Hone.
  - intros Hl. by injection Hl as _ <- _.
  - destruct (loop_rebuild cfg code o evs w)
      as (w1 & out1 & w2 & out2 & H1 & H2 & ->).
    destruct (loop cfg code evs w2) as [r3 w3 out3|] eqn:E; simpl;
      [|discriminate].
    intros Hl. injection Hl as <- <- _. apply (IH w2 out3); [|done].
    eapply buildAndRun_one_child; [|done].
    by eapply stopProcess_reaps.
  - intros Hl. by injection Hl as _ <- _.
  - intros Hl. by injection Hl as _ <- _.
Qed.

(** X11: [main] keeps at most one child alive, and leaves none behind.
    Started with no child alive: while the loop waits, every child it ever
    started has been killed and waited for, except the one that [cmd]
    tracks; when [main] exits, with either status, every child has been
    killed and waited for. *)
Theorem main_leaves_no_child cfg (o : Outcome) (evs : list CoordinatorEvent)
    (w w' : World) (r : option Z) (out : list Event) :
  all_reaped w ->
  main cfg o evs w = Ok r w' out ->
  (r = None ->
   one_child w' /\
   forall p q, procs w' !! p = Some Running ->
               procs w' !! q = Some Running -> p = q) /\
  (r <> None -> all_reaped w').
Proof.
  intros Hall Hmain.
  destruct (main_result cfg o evs w)
    as (r1 & w1' & out' & w1 & w2 & out1 & out2 & Hmain' & Hb & Hl & Hout).
  rewrite Hmain in Hmain'. injection Hmain' as <- <- <-.
  assert (one_child w2) as H2.
  { eapply loop_one_child; [|done]. by eapply buildAndRun_one_child. }
  split.
  - intros ->. destruct Hout as [-> _]. split; [done|].
    intros p q Hp Hq.
    destruct (H2 p Running Hp) as [?|(_ & c & Hc & Hpc & _)]; [done|].
    destruct (H2 q Running Hq) as [?|(_ & c' & Hc' & Hqc & _)]; [done|].
    congruence.
  - intros Hr. destruct r as [c|]; [|done].
    destruct Hout as (out3 & H3 & _). by eapply stopProcess_reaps.
Qed.

Lemma main_leaves_no_child_witness :
  exists w' out,
    main config (mkOutcome None None)
      [RebuildRequested (mkOutcome None None); FatalError (FsError "x")]
      (mkWorld None []) = Ok (Some 1) w' out /\
    all_reaped w'.
Proof.
  eexists _, _. split; [vm_compute; reflexivity|].
  eapply (main_leaves_no_child config (mkOutcome None None)
            [RebuildRequested (mkOutcome None None); FatalError (FsError "x")]
            (mkWorld None [])).
  - intros p s Hp. by destruct p.
  - vm_compute. reflexivity.
  - discriminate.
Defined.

(** ** Builds and launches of a run *)

Lemma count_app {A : Type} (f : A -> bool) (l1 l2 : list A) :
  count f (l1 ++ l2) = (count f l1 + count f l2)%nat.
Proof. induction l1 as [|x l1 IH]; simpl; [done|rewrite IH; lia]. Qed.

(** [stopProcess] builds nothing, starts nothing and creates no process. *)
Lemma stopProcess_counts (w w' : World) (out : list Event) :
  stopProcess w = Ok tt w' out ->
  count is_build out = 0%nat /\ count is_start out = 0%nat /\
  length (procs w') = length (procs w).
Proof.
  intros Hstop.
  destruct (cmd w) as [c|] eqn:Hc; [destruct (Process c) as [p|] eqn:Hp|].
  - destruct (stopProcess_tracked w c p Hc Hp) as (w1 & H1 & _ & _ & Hlen & _).
    rewrite H1 in Hstop. by injection Hstop as <- <-.
  - rewrite stopProcess_untracked in Hstop by (right; eauto).
    by injection Hstop as <- <-.
  - rewrite stopProcess_untracked in Hstop by (by left).
    by injection Hstop as <- <-.
Qed.

(** One sequence: one build; a start only after a successful build; a
    new process only after a successful start. *)
Lemma buildAndRun_counts cfg (o : Outcome) (w w' : World) (out : list Event) :
  buildAndRun cfg o w = Ok tt w' out ->
  count is_build out = 1%nat /\
  count is_start out = (if built o then 1 else 0)%nat /\
  length (procs w') = (length (procs w) + if launched o then 1 else 0)%nat.
Proof.
  unfold built, launched, not_nil. intros Hrun.
  destruct (buildErr o) as [e|] eqn:Hb.
  - rewrite (buildAndRun_build_failed cfg o e w Hb) in Hrun.
    injection Hrun as <- <-. simpl. repeat split; lia.
  - destruct (startErr o) as [e|] eqn:Hs.
    + rewrite (buildAndRun_start_failed cfg o e w Hb Hs) in Hrun.
      injection Hrun as <- <-. simpl. repeat split; lia.
    + rewrite (buildAndRun_started cfg o w Hb Hs) in Hrun.
      injection Hrun as <- <-. simpl. rewrite length_app. simpl.
      repeat split; lia.
Qed.

Lemma loop_counts cfg (code : Z) (os : list Outcome)
    (tail : list CoordinatorEvent) (w w' : World) (r : option Z)
    (out : list Event) :
  match tail with
  | RebuildRequested _ :: _ => False
  | _ => True
  end ->
  loop cfg code ((RebuildRequested <$> os) ++ tail) w = Ok r w' out ->
  count is_build out = length os /\
  count is_start out = count built os /\
  length (procs w') = (length (procs w) + count launched os)%nat.
Proof.
  intros Htail. revert w out. induction os as [|o os IH]; intros w out.
  - simpl. destruct tail as [|[o|e|] tail]; [|done| |]; run;
      intros [= _ <- <-]; simpl; repeat split; lia.
  - rewrite fmap_cons, <- app_comm_cons.
    destruct (loop_rebuild cfg code o ((RebuildRequested <$> os) ++ tail) w)
      as (w1 & out1 & w2 & out2 & H1 & H2 & ->).
    destruct (loop cfg code ((RebuildRequested <$> os) ++ tail) w2)
      as [r3 w3 out3|] eqn:E; simpl; [|discriminate].
    intros [= <- <- <-].
    destruct (IH w2 out3 E) as (Hb & Hs & Hl).
    destruct (stopProcess_counts w w1 out1 H1) as (Hb1 & Hs1 & Hl1).
    destruct (buildAndRun_counts cfg o w1 w2 out2 H2) as (Hb2 & Hs2 & Hl2).
    rewrite !count_app. simpl.
    destruct (built o), (launched o); repeat split; lia.
Qed.

(** X12: no rebuild request is dropped or merged. A run of [main] that
    receives [n] rebuild requests, then nothing more or a fatal error or
    the shutdown signal, runs the build command exactly [n + 1] times,
    starts the program once for every build that succeeded, and creates a
    process once for every start that succeeded; the cleanup at exit
    builds and starts nothing. *)
Theorem main_builds_once_per_request cfg (o : Outcome) (os : list Outcome)
    (tail : list CoordinatorEvent) (w w' : World) (r : option Z)
    (out : list Event) :
  match tail with
  | RebuildRequested _ :: _ => False
  | _ => True
  end ->
  main cfg o ((RebuildRequested <$> os) ++ tail) w = Ok r w' out ->
  count is_build out = S (length os) /\
  count is_start out = count built (o :: os) /\
  length (procs w') = (length (procs w) + count launched (o :: os))%nat.
Proof.
  intros Htail Hmain.
  destruct (main_result cfg o ((RebuildRequested <$> os) ++ tail) w)
    as (r1 & w1' & out' & w1 & w2 & out1 & out2 & Hmain' & Hb & Hl & Hout).
  rewrite Hmain in Hmain'. injection Hmain' as <- <- <-.
  destruct (buildAndRun_counts cfg o w w1 out1 Hb) as (Hb1 & Hs1 & Hl1).
  destruct (loop_counts cfg 0 os tail w1 w2 r out2 Htail Hl) as (Hb2 & Hs2 & Hl2).
  destruct r as [c|].
  - destruct Hout as (out3 & H3 & ->).
    destruct (stopProcess_counts w2 w' out3 H3) as (Hb3 & Hs3 & Hl3).
    rewrite !count_app. simpl.
    destruct (built o), (launched o); repeat split; lia.
  - destruct Hout as [-> ->]. rewrite !count_app. simpl.
    destruct (built o), (launched o); repeat split; lia.
Qed.

Lemma main_builds_once_per_request_witness :
  exists w' out,
    main config (mkOutcome (Some (ExecError "exit status 1")) None)
      [RebuildRequested (mkOutcome None (Some (ExecError "denied")));
       RebuildRequested (mkOutcome None None); ShutdownRequested]
      (mkWorld None []) = Ok (Some 0) w' out /\
    count is_build out = 3%nat /\ count is_start out = 2%nat /\
    length (procs w') = 1%nat.
Proof.
  eexists _, _. split; [vm_compute; reflexivity|].
  eapply (main_builds_once_per_request config
            (mkOutcome (Some (ExecError "exit status 1")) None)
            [mkOutcome None (Some (ExecError "denied")); mkOutcome None None]
            [ShutdownRequested] (mkWorld None [])).
  - exact I.
  - vm_compute. reflexivity.
Defined.

(** ** Events that arrive after the loop is left *)

Lemma loop_ignores_later_events cfg (code : Z) (os : list Outcome)
    (t : CoordinatorEvent) (rest : list CoordinatorEvent) (w : World) :
  (forall o, t <> RebuildRequested o) ->
  loop cfg code ((RebuildRequested <$> os) ++ t :: rest) w
  = loop cfg code ((RebuildRequested <$> os) ++ [t]) w.
Proof.
  intros Ht. revert w. induction os as [|o os IH]; intros w.
  - simpl. destruct t as [o|e|]; [by destruct (Ht o)|done|done].
  - rewrite fmap_cons, <- !app_comm_cons.
    destruct (loop_rebuild cfg code o ((RebuildRequested <$> os) ++ t :: rest) w)
      as (w1 & out1 & w2 & out2 & H1 & H2 & ->).
    destruct (loop_rebuild cfg code o ((RebuildRequested <$> os) ++ [t]) w)
      as (w1' & out1' & w2' & out2' & H1' & H2' & ->).
    rewrite H1 in H1'. injection H1' as <- <-.
    rewrite H2 in H2'. injection H2' as <- <-.
    by rewrite IH.
Qed.

(** X13: once the loop has received a fatal error or the shutdown
    signal it handles nothing more: whatever events would follow, rebuild
    requests included, the run of [main] is the same, in its exit status,
    in what it prints and calls, and in its final state. *)
Theorem main_ignores_later_events cfg (o : Outcome) (os : list Outcome)
    (t : CoordinatorEvent) (rest : list CoordinatorEvent) (w : World) :
  (forall o', t <> RebuildRequested o') ->
  main cfg o ((RebuildRequested <$> os) ++ t :: rest) w
  = main cfg o ((RebuildRequested <$> os) ++ [t]) w.
Proof.
  intros Ht. unfold main.
  destruct (buildAndRun_total cfg o w) as (w1 & out1 & H1).
  rewrite !(bind_Ok _ _ _ _ _ _ H1). f_equal.
  unfold mbind, M_bind. by rewrite (loop_ignores_later_events cfg 0 os t rest w1 Ht).
Qed.

Lemma main_ignores_later_events_witness :
  main config (mkOutcome None None)
    [ShutdownRequested; RebuildRequested (mkOutcome None None);
     FatalError (FsError "late")]
    (mkWorld None [])
  = main config (mkOutcome None None) [ShutdownRequested] (mkWorld None []).
Proof.
  apply (main_ignores_later_events config (mkOutcome None None) []
           ShutdownRequested
           [RebuildRequested (mkOutcome None None); FatalError (FsError "late")]
           (mkWorld None [])).
  discriminate.
Defined.

(** ** One rebuild cycle *)

(** X14: a rebuild that succeeds replaces the child. With a running
    child tracked by [cmd], a rebuild request whose build and start
    succeed kills and waits for the old child first, then builds, then
    starts the program: in this order, once each; afterwards the old child
    is terminated and waited for, the new one runs under a new process id,
    [cmd] tracks it, and the loop goes on. *)
Theorem rebuild_replaces_child cfg (o : Outcome) (w : World) (c : Cmd)
    (p : pid) (code : Z) (evs : list CoordinatorEvent) :
  cmd w = Some c -> Process c = Some p -> ProcessState c = false ->
  procs w !! p = Some Running ->
  buildErr o = None -> startErr o = None ->
  loop cfg code (RebuildRequested o :: evs) w =
  after [Printed MsgStopping; KillCall p; WaitCall;
         Printed MsgBuilding; BuildRun (BinaryName cfg) (MainFile cfg);
         Printed MsgBuildSuccessful; Printed MsgRunningProgram;
         StartCall (run_path cfg); Printed MsgProgramIsRunning]
        (loop cfg code evs
           (mkWorld (Some (mkCmd (run_path cfg) (Some (length (procs w))) false))
                    (<[p := Reaped]> (procs w) ++ [Running]))) /\
  p <> length (procs w) /\
  (<[p := Reaped]> (procs w) ++ [Running]) !! p = Some Reaped /\
  (<[p := Reaped]> (procs w) ++ [Running]) !! length (procs w) = Some Running.
Proof.
  intros Hc Hp Hst Hrun Hb Hs.
  pose proof (lookup_lt_Some _ _ _ Hrun) as Hlt.
  assert (stopProcess w
          = Ok tt (mkWorld (Some (mkCmd (Path c) (Some p) true))
                           (<[p := Reaped]> (procs w)))
               [Printed MsgStopping; KillCall p; WaitCall]) as Hstop.
  { destruct w as [c0 ps], c as [pa pr st]. simpl in *. subst.
    run. rewrite Hrun. simpl. by rewrite list_insert_insert_eq. }
  split; [|split; [lia|split]].
  - destruct (loop_rebuild cfg code o evs w)
      as (w1 & out1 & w2 & out2 & H1 & H2 & ->).
    rewrite Hstop in H1. injection H1 as <- <-.
    rewrite (buildAndRun_started cfg o _ Hb Hs) in H2.
    injection H2 as <- <-. simpl. by rewrite length_insert.
  - rewrite lookup_app_l by (by rewrite length_insert).
    by apply list_lookup_insert_eq.
  - apply list_lookup_middle. by rewrite length_insert.
Qed.

Lemma rebuild_replaces_child_witness :
  exit_code
    (loop config 0 [RebuildRequested (mkOutcome None None); ShutdownRequested]
       (mkWorld (Some (mkCmd "./app" (Some 0%nat) false)) [Running]))
  = Some 0.
Proof.
  rewrite (proj1 (rebuild_replaces_child config (mkOutcome None None)
                    (mkWorld (Some (mkCmd "./app" (Some 0%nat) false)) [Running])
                    (mkCmd "./app" (Some 0%nat) false) 0%nat 0
                    [ShutdownRequested]
                    eq_refl eq_refl eq_refl eq_refl eq_refl eq_refl)).
  reflexivity.
Defined.

(** ** The initial walk in the two revisions *)

Lemma rev001_Walk_initial_agrees cfg (visits : list Visit)
    (tbl tbl' : gmap string Z) (out : list Send) :
  Walk (initialVisit cfg) visits tbl = (tbl', None) ->
  Walk (Rev001.initialVisit cfg) visits (tbl, out) = ((tbl', out), None).
Proof.
  revert tbl. induction visits as [|v visits IH]; intros tbl; cbn [Walk].
  - by intros [= ->].
  - destruct (initialVisit cfg (path v) (info v) (err v) tbl) as [t1 [e|]] eqn:E;
      [discriminate|].
    intros HW.
    assert (Rev001.initialVisit cfg (path v) (info v) (err v) (tbl, out)
            = ((t1, out), None)) as ->; [|by apply IH].
    revert E. unfold initialVisit, Rev001.initialVisit.
    destruct (err v); [discriminate|].
    destruct (IsDir (info v) || negb (shouldWatch cfg (path v)));
      [by intros [= ->]|].
    case_match; [discriminate|]. by intros [= ->].
Qed.

Lemma rev001_Walk_initial_total cfg (visits : list Visit)
    (s : gmap string Z * list Send) :
  snd (Walk (Rev001.initialVisit cfg) visits s) = None.
Proof.
  revert s. induction visits as [|v visits IH]; intros [tbl out]; simpl; [done|].
  unfold Rev001.initialVisit at 1.
  repeat case_match; simplify_eq; apply IH.
Qed.

(** X15: the initial walk of revision 0.0.1 never fails: it has no
    limit and goes on after a walk error. Whenever the initial walk of
    revision 0.0.3 completes, the earlier one builds the same table and
    sends nothing. *)
Theorem rev001_initial_walk cfg (visits : list Visit) :
  snd (Walk (Rev001.initialVisit cfg) visits (∅, [])) = None /\
  (snd (Walk (initialVisit cfg) visits ∅) = None ->
   fst (Walk (Rev001.initialVisit cfg) visits (∅, []))
   = (fst (Walk (initialVisit cfg) visits ∅), [])).
Proof.
  split; [apply rev001_Walk_initial_total|].
  destruct (Walk (initialVisit cfg) visits ∅) as [tbl [e|]] eqn:E; simpl;
    [discriminate|].
  intros _. by rewrite (rev001_Walk_initial_agrees cfg visits ∅ tbl [] E).
Qed.

Lemma rev001_initial_walk_witness :
  fst (Walk (Rev001.initialVisit config) [file "a.go" 1; file "b.go" 2] (∅, []))
  = (fst (Walk (initialVisit config) [file "a.go" 1; file "b.go" 2] ∅), []).
Proof.
  apply (rev001_initial_walk config [file "a.go" 1; file "b.go" 2]).
  vm_compute. reflexivity.
Defined.
